(** * CodeJamRemix web server: a shallow embedding of [WebServer/__init__.py]

    The module under study wires three middleware components, a route
    table and two error handlers into a [falcon.API] application.  The
    development below embeds

    - the Python values that travel in response bodies ([pyval]) together
      with [json.dumps] / [json.loads] on them,
    - the peewee data model ([User], [Problem], [Solution]) and
      [User.get_points],
    - the pooled database handle as far as the connection middleware
      touches it,
    - the request loop of [falcon.API.__call__] (falcon 1.x, the release
      line whose [process_response(req, resp, resource)] signature and
      positional [API(...)] arguments the module relies on), and
    - the middleware, handlers, resources and registrations of the module.

    Mutable Python objects (the response, the process-wide database
    handle) live in an explicit context that is threaded through an
    exception-and-state monad. *)

From Stdlib Require Import ZArith Ascii String List Lia DecimalString DecimalZ.
From stdpp Require Import base option list strings gmap.

Local Open Scope string_scope.
Local Open Scope Z_scope.

Set Warnings "-register-all".

(** ** Python values carried by response bodies *)

(** The bodies this module produces are [None], booleans, integers,
    strings, lists and string-keyed dicts; a responder may as well set a
    tuple.  A Python [str] is modelled by a [string] whose characters
    are the code points below 256; a [dict] by its items in insertion
    order.  Floats, dicts with keys that are not strings and objects
    that [json.dumps] refuses are not among the values. *)
Inductive pyval : Type :=
  | PNone
  | PBool (b : bool)
  | PInt (n : Z)
  | PStr (s : string)
  | PList (xs : list pyval)
  | PTuple (xs : list pyval)
  | PDict (items : list (string * pyval)).

(** A well-formed value has no dict with a repeated key. *)
Fixpoint wf_pyval (v : pyval) : Prop :=
  match v with
  | PList xs | PTuple xs =>
      (fix all (l : list pyval) : Prop :=
         match l with
         | [] => True
         | x :: l' => wf_pyval x ∧ all l'
         end) xs
  | PDict items =>
      NoDup (map fst items) ∧
      (fix all (l : list (string * pyval)) : Prop :=
         match l with
         | [] => True
         | kv :: l' => wf_pyval (snd kv) ∧ all l'
         end) items
  | _ => True
  end.

(** ** [json.dumps] and [json.loads] *)

Module json.

(** *** [json.dumps] with its default arguments *)

Definition dquote : ascii := "034"%char.
Definition backslash : ascii := "\"%char.

(** [str.join] *)
Fixpoint join (sep : string) (parts : list string) : string :=
  match parts with
  | [] => ""
  | [p] => p
  | p :: rest => p ++ sep ++ join sep rest
  end.

Definition hex_digit (n : N) : ascii :=
  ascii_of_N (if (n <? 10)%N then 48 + n else 87 + n)%N.

(** ['\\u{0:04x}'.format(n)] for a code point below 256 *)
Definition u_escape (c : ascii) : string :=
  let n := N_of_ascii c in
  String backslash
    (String "u" (String "0" (String "0"
       (String (hex_digit (n / 16)) (String (hex_digit (n mod 16)) ""))))).

(** [ESCAPE_ASCII] matches a backslash, a double quote and every
    character outside [' ' .. '~']; [ESCAPE_DCT] gives the short
    escapes, everything else becomes [\uXXXX]. *)
Definition escape_char (c : ascii) : string :=
  let n := N_of_ascii c in
  if (n =? 34)%N then String backslash (String dquote "")
  else if (n =? 92)%N then String backslash (String backslash "")
  else if (n =? 10)%N then String backslash "n"
  else if (n =? 13)%N then String backslash "r"
  else if (n =? 9)%N then String backslash "t"
  else if (n =? 8)%N then String backslash "b"
  else if (n =? 12)%N then String backslash "f"
  else if ((32 <=? n) && (n <=? 126))%N then String c ""
  else u_escape c.

Fixpoint escape (s : string) : string :=
  match s with
  | EmptyString => ""
  | String c s' => escape_char c ++ escape s'
  end.

Definition py_encode_basestring_ascii (s : string) : string :=
  String dquote (escape s ++ String dquote "").

(** [int.__repr__] *)
Definition int_repr (n : Z) : string := NilZero.string_of_int (Z.to_int n).

Fixpoint dumps (v : pyval) : string :=
  match v with
  | PNone => "null"
  | PBool true => "true"
  | PBool false => "false"
  | PInt n => int_repr n
  | PStr s => py_encode_basestring_ascii s
  | PList xs | PTuple xs => "[" ++ join ", " (map dumps xs) ++ "]"
  | PDict items =>
      "{" ++ join ", "
               (map (fun kv : string * pyval =>
                       let (k, x) := kv in
                       py_encode_basestring_ascii k ++ ": " ++ dumps x)
                    items)
          ++ "}"
  end.

(** *** [json.loads] with its default arguments *)

(** The decoder reads the text from the front; every function returns
    the text that is left.  Floats, [NaN] and the infinities are not
    values of [pyval], and a [\uXXXX] escape above 255 is not a
    character of [string]: the model refuses such texts. *)

Definition is_ws (c : ascii) : bool :=
  let n := N_of_ascii c in
  ((n =? 32) || (n =? 9) || (n =? 10) || (n =? 13))%N.

(** [WHITESPACE.match(s, end).end()] *)
Fixpoint skip_ws (s : string) : string :=
  match s with
  | String c r => if is_ws c then skip_ws r else s
  | EmptyString => s
  end.

Definition hex_value (c : ascii) : option N :=
  let n := N_of_ascii c in
  if ((48 <=? n) && (n <=? 57))%N then Some (n - 48)%N
  else if ((97 <=? n) && (n <=? 102))%N then Some (n - 87)%N
  else if ((65 <=? n) && (n <=? 70))%N then Some (n - 55)%N
  else None.

(** The [BACKSLASH] table of the decoder. *)
Definition unescape (c : ascii) : option ascii :=
  let n := N_of_ascii c in
  if (n =? 34)%N then Some dquote
  else if (n =? 92)%N then Some backslash
  else if (n =? 47)%N then Some "/"%char
  else if (n =? 98)%N then Some "008"%char
  else if (n =? 102)%N then Some "012"%char
  else if (n =? 110)%N then Some "010"%char
  else if (n =? 114)%N then Some "013"%char
  else if (n =? 116)%N then Some "009"%char
  else None.

(** [scanstring], entered after the opening quote; strict mode. *)
Fixpoint scanstring (s : string) : option (string * string) :=
  match s with
  | EmptyString => None
  | String c r =>
      let n := N_of_ascii c in
      if (n =? 34)%N then Some (EmptyString, r)
      else if (n =? 92)%N then
        match r with
        | EmptyString => None
        | String e r1 =>
            if Ascii.eqb e "u" then
              match r1 with
              | String h1 (String h2 (String h3 (String h4 r2))) =>
                  match hex_value h1, hex_value h2, hex_value h3, hex_value h4 with
                  | Some a, Some b, Some c', Some d =>
                      let uni := (((a * 16 + b) * 16 + c') * 16 + d)%N in
                      if (uni <? 256)%N then
                        match scanstring r2 with
                        | Some (str, rest) => Some (String (ascii_of_N uni) str, rest)
                        | None => None
                        end
                      else None
                  | _, _, _, _ => None
                  end
              | _ => None
              end
            else
              match unescape e with
              | Some ch =>
                  match scanstring r1 with
                  | Some (str, rest) => Some (String ch str, rest)
                  | None => None
                  end
              | None => None
              end
        end
      else if (n <? 32)%N then None
      else
        match scanstring r with
        | Some (str, rest) => Some (String c str, rest)
        | None => None
        end
  end.

Definition is_digit (c : ascii) : bool :=
  let n := N_of_ascii c in ((48 <=? n) && (n <=? 57))%N.

Fixpoint span_digits (s : string) : string * string :=
  match s with
  | String c r =>
      if is_digit c
      then let (ds, rest) := span_digits r in (String c ds, rest)
      else (EmptyString, s)
  | EmptyString => (EmptyString, EmptyString)
  end.

(** The integer group of [NUMBER_RE]: an optional minus sign, then [0]
    or a digit string that does not start with [0]. *)
Definition match_integer (s : string) : option (string * string) :=
  let (sign, s1) :=
    match s with
    | String c r => if Ascii.eqb c "-" then ("-", r) else (EmptyString, s)
    | EmptyString => (EmptyString, s)
    end in
  match s1 with
  | String c r =>
      if Ascii.eqb c "0" then Some (sign ++ "0", r)
      else if is_digit c
      then let (ds, rest) := span_digits r in Some (sign ++ String c ds, rest)
      else None
  | EmptyString => None
  end.

(** Does a fraction or an exponent follow the integer part? *)
Definition float_follows (s : string) : bool :=
  match s with
  | String c _ => Ascii.eqb c "." || Ascii.eqb c "e" || Ascii.eqb c "E"
  | EmptyString => false
  end.

(** [int(text)] on the text the integer group matched *)
Definition py_int (text : string) : option Z :=
  option_map Z.of_int (NilZero.int_of_string text).

Definition scan_number (s : string) : option (pyval * string) :=
  match match_integer s with
  | Some (text, rest) =>
      if float_follows rest then None
      else match py_int text with
           | Some n => Some (PInt n, rest)
           | None => None
           end
  | None => None
  end.

Fixpoint strip_prefix (p s : string) : option string :=
  match p, s with
  | EmptyString, _ => Some s
  | String a p', String b s' => if Ascii.eqb a b then strip_prefix p' s' else None
  | String _ _, EmptyString => None
  end.

(** [d[k] = v] on a dict kept as its items in insertion order *)
Fixpoint dict_set (k : string) (v : pyval) (d : list (string * pyval))
    : list (string * pyval) :=
  match d with
  | [] => [(k, v)]
  | (k', v') :: d' =>
      if String.eqb k k' then (k, v) :: d' else (k', v') :: dict_set k v d'
  end.

(** [dict(pairs)] *)
Definition dict (pairs : list (string * pyval)) : list (string * pyval) :=
  fold_left (fun d kv => dict_set (fst kv) (snd kv) d) pairs [].

Section loops.

(** The scanner to call for a nested value. *)
Variable scan_once : string → option (pyval * string).

(** The [while True] loop of [JSONArray], entered at the start of a
    value; [n] bounds the number of rounds. *)
Fixpoint array_loop (n : nat) (s : string) : option (list pyval * string) :=
  match n with
  | O => None
  | S n' =>
      match scan_once s with
      | None => None
      | Some (value, s1) =>
          match skip_ws s1 with
          | EmptyString => None
          | String c r =>
              if Ascii.eqb c "]" then Some ([value], r)
              else if Ascii.eqb c "," then
                match array_loop n' (skip_ws r) with
                | Some (values, rest) => Some (value :: values, rest)
                | None => None
                end
              else None
          end
      end
  end.

(** [JSONArray], entered after the opening bracket. *)
Definition JSONArray (n : nat) (s : string) : option (list pyval * string) :=
  match skip_ws s with
  | EmptyString => None
  | String c r =>
      if Ascii.eqb c "]" then Some ([], r) else array_loop n (skip_ws s)
  end.

(** The [while True] loop of [JSONObject], entered after the opening
    quote of a key. *)
Fixpoint object_loop (n : nat) (s : string)
    : option (list (string * pyval) * string) :=
  match n with
  | O => None
  | S n' =>
      match scanstring s with
      | None => None
      | Some (key, s1) =>
          match skip_ws s1 with
          | EmptyString => None
          | String c r =>
              if Ascii.eqb c ":" then
                match scan_once (skip_ws r) with
                | None => None
                | Some (value, s2) =>
                    match skip_ws s2 with
                    | EmptyString => None
                    | String d r2 =>
                        if Ascii.eqb d "}" then Some ([(key, value)], r2)
                        else if Ascii.eqb d "," then
                          match skip_ws r2 with
                          | EmptyString => None
                          | String q r3 =>
                              if Ascii.eqb q dquote then
                                match object_loop n' r3 with
                                | Some (pairs, rest) =>
                                    Some ((key, value) :: pairs, rest)
                                | None => None
                                end
                              else None
                          end
                        else None
                    end
                end
              else None
          end
      end
  end.

(** [JSONObject], entered after the opening brace. *)
Definition JSONObject (n : nat) (s : string)
    : option (list (string * pyval) * string) :=
  match skip_ws s with
  | EmptyString => None
  | String c r =>
      if Ascii.eqb c dquote then
        match object_loop n r with
        | Some (pairs, rest) => Some (dict pairs, rest)
        | None => None
        end
      else if Ascii.eqb c "}" then Some ([], r)
      else None
  end.

End loops.

(** [scan_once]; [fuel] bounds the nesting depth and the length of
    every array and object. *)
Fixpoint scan_once (fuel : nat) (s : string) : option (pyval * string) :=
  match fuel with
  | O => None
  | S fuel' =>
      match s with
      | EmptyString => None
      | String c r =>
          if Ascii.eqb c dquote then
            match scanstring r with
            | Some (str, rest) => Some (PStr str, rest)
            | None => None
            end
          else if Ascii.eqb c "{" then
            match JSONObject (scan_once fuel') fuel' r with
            | Some (items, rest) => Some (PDict items, rest)
            | None => None
            end
          else if Ascii.eqb c "[" then
            match JSONArray (scan_once fuel') fuel' r with
            | Some (xs, rest) => Some (PList xs, rest)
            | None => None
            end
          else
            match strip_prefix "null" s, strip_prefix "true" s, strip_prefix "false" s with
            | Some rest, _, _ => Some (PNone, rest)
            | _, Some rest, _ => Some (PBool true, rest)
            | _, _, Some rest => Some (PBool false, rest)
            | _, _, _ => scan_number s
            end
      end
  end.

(** [json.loads]: one value, white space around it, nothing else.  A
    value nests and branches less than its text is long. *)
Definition loads (s : string) : option pyval :=
  match scan_once (S (String.length s)) (skip_ws s) with
  | Some (obj, rest) =>
      match skip_ws rest with
      | EmptyString => Some obj
      | _ => None
      end
  | None => None
  end.

End json.

(** ** The peewee models *)

Module models.

(** Rows of the three tables.  A foreign key to [User] is kept as the
    referenced row's primary key; the foreign key to [Problem] is kept as
    the referenced row, which is what [x.problem] evaluates to. *)
Record User := {
  user_id : Z;
  username : string;
  password : string;
  remember_token : string;
  join_date : Z }.

Record Problem := {
  name : string;
  description : string;
  points : Z;
  test_file_hash : string }.

Record Solution := {
  user : Z;
  problem : Problem;
  last_attempt : string;
  solved : bool }.

(** The back-reference [self.solutions] declared by
    [ForeignKeyField(User, related_name='solutions')]: the rows of the
    solution table whose [user] is [self]. *)
Definition solutions (table : list Solution) (self : User) : list Solution :=
  filter (fun x => user x = user_id self) table.

(** Python's built-in [sum] over a list of integers. *)
Definition py_sum (l : list Z) : Z := fold_left Z.add l 0.

(** [User.get_points] *)
Definition get_points (table : list Solution) (self : User) : Z :=
  py_sum (map (fun x => points (problem x)) (solutions table self)).

(** The derived score in the words of the specification: the sum of
    [Challenge.points] over the account's submissions whose [solved] flag
    is true.  Kept next to [get_points] for comparison. *)
Definition derived_score_spec (table : list Solution) (self : User) : Z :=
  py_sum (map (fun x => points (problem x))
              (filter (fun x => solved x = true) (solutions table self))).

End models.

(** ** The pooled database handle *)

(** [PooledPostgresqlExtDatabase(None, ..., max_connections=20, ...)] as
    far as the middleware observes it: the [closed] flag of the current
    thread's connection state and the number of connections leased from
    the pool. *)
Record Database := {
  closed : bool;
  in_use : nat }.

Definition max_connections : nat := 20.

(** The state of the handle at import time: nothing connected. *)
Definition database0 : Database := {| closed := true; in_use := 0 |}.

(** ** falcon: statuses, errors, requests and responses *)

Module falcon.

Definition HTTP_200 : string := "200 OK".
Definition HTTP_204 : string := "204 No Content".
Definition HTTP_401 : string := "401 Unauthorized".
Definition HTTP_404 : string := "404 Not Found".
Definition HTTP_405 : string := "405 Method Not Allowed".
Definition HTTP_500 : string := "500 Internal Server Error".

(** [falcon.HTTPError]: the status line, the optional title and
    description, the extra response headers and the documentation
    link.  [optional_representation] marks the subclasses (404, 405)
    that carry a body only when a description was given. *)
Record HTTPError := {
  status : string;
  title : option string;
  description : option string;
  headers : list (string * string);
  href : option string;
  optional_representation : bool }.

Definition has_representation (e : HTTPError) : bool :=
  if optional_representation e then bool_decide (description e ≠ None)
  else true.

(** [HTTPUnauthorized(title, description, challenges, href=...)] *)
Definition HTTPUnauthorized (title description : string)
    (challenges : list string) (href : string) : HTTPError :=
  {| status := HTTP_401;
     title := Some title;
     description := Some description;
     headers := [("WWW-Authenticate", json.join ", " challenges)];
     href := Some href;
     optional_representation := false |}.

(** [HTTPNotFound()] *)
Definition HTTPNotFound : HTTPError :=
  {| status := HTTP_404;
     title := None;
     description := None;
     headers := [];
     href := None;
     optional_representation := true |}.

(** [HTTPMethodNotAllowed(allowed_methods)] *)
Definition HTTPMethodNotAllowed (allowed_methods : list string) : HTTPError :=
  {| status := HTTP_405;
     title := None;
     description := None;
     headers := [("Allow", json.join ", " allowed_methods)];
     href := None;
     optional_representation := true |}.

(** [HTTPInternalServerError(title, description)] *)
Definition HTTPInternalServerError (title description : string) : HTTPError :=
  {| status := HTTP_500;
     title := Some title;
     description := Some description;
     headers := [];
     href := None;
     optional_representation := false |}.

(** [HTTPError.to_dict] and [HTTPError.to_json] for an error that has a
    representation: the fields that are set, in the order title,
    description, link.  The assertion with which [to_dict] begins is
    taken at the call, in [error_serialiser].  Releases 1.0 and 1.1 of
    falcon lay the same document out over several lines; the text is
    kept on one line here, and what is used of it is what it decodes
    to. *)
Definition to_dict (e : HTTPError) : pyval :=
  PDict
    (match title e with Some t => [("title", PStr t)] | None => [] end ++
     match description e with Some d => [("description", PStr d)] | None => [] end ++
     match href e with
     | Some h => [("link", PDict [("text", PStr "Documentation related to this error");
                                  ("href", PStr h);
                                  ("rel", PStr "help")])]
     | None => []
     end).

Definition to_json (e : HTTPError) : string := json.dumps (to_dict e).

Inductive Method :=
  OPTIONS | GET | HEAD | POST | PUT | DELETE | TRACE | CONNECT | PATCH.

Global Instance Method_eq_dec : EqDecision Method.
Proof. solve_decision. Defined.

Definition method_name (m : Method) : string :=
  match m with
  | OPTIONS => "OPTIONS" | GET => "GET" | HEAD => "HEAD" | POST => "POST"
  | PUT => "PUT" | DELETE => "DELETE" | TRACE => "TRACE"
  | CONNECT => "CONNECT" | PATCH => "PATCH"
  end.

(** A request: the method, the path as the client sent it
    ([PATH_INFO]), the [HTTP_*] entries of the WSGI environment and the
    query parameters ([Request.params]). *)
Record Request := {
  method : Method;
  path : string;
  env : gmap string string;
  params : gmap string string }.

(** [s[:-1]] for a string that ends with a slash, [s] otherwise. *)
Fixpoint drop_last_slash (s : string) : string :=
  match s with
  | EmptyString => EmptyString
  | String c EmptyString => if Ascii.eqb c "/" then EmptyString else s
  | String c r => String c (drop_last_slash r)
  end.

(** [Request.path]: ["/"] for an empty [PATH_INFO]; otherwise the path
    without its trailing slash, if it has one and is longer than one
    character. *)
Definition Request_path (req : Request) : string :=
  match path req with
  | EmptyString => "/"
  | String c EmptyString => String c EmptyString
  | p => drop_last_slash p
  end.

(** [str.lstrip('/')] and [str.rstrip('/')] *)
Fixpoint lstrip_slash (s : string) : string :=
  match s with
  | String c r => if Ascii.eqb c "/" then lstrip_slash r else s
  | EmptyString => EmptyString
  end.

Fixpoint rstrip_slash (s : string) : string :=
  match s with
  | EmptyString => EmptyString
  | String c r =>
      match rstrip_slash r with
      | EmptyString => if Ascii.eqb c "/" then EmptyString else String c EmptyString
      | r' => String c r'
      end
  end.

Definition wsgi_char (c : ascii) : ascii :=
  let n := N_of_ascii c in
  if (n =? 45)%N then "_"%char
  else if ((97 <=? n) && (n <=? 122))%N then ascii_of_N (n - 32)
  else c.

Fixpoint wsgi_name (s : string) : string :=
  match s with
  | EmptyString => EmptyString
  | String c s' => String (wsgi_char c) (wsgi_name s')
  end.

(** [Request.get_header(name)]: the value of the header, or [None]. *)
Definition get_header (req : Request) (name : string) : option string :=
  env req !! ("HTTP_" ++ wsgi_name name).

(** A response object: status line, body, content type and the other
    headers.  [Response()] starts as [200 OK] with no body. *)
Record Response := {
  resp_status : string;
  body : pyval;
  content_type : option string;
  resp_headers : list (string * string) }.

Definition Response0 : Response :=
  {| resp_status := HTTP_200;
     body := PNone;
     content_type := None;
     resp_headers := [] |}.

End falcon.

Import falcon.

(** ** Exceptions, the per-request context and the execution monad *)

(** The exception classes the module can meet.  [HTTPError_exn] covers
    [falcon.HTTPError] and its subclasses; the others are plain
    [Exception]s. *)
Inductive exn :=
  | HTTPError_exn (e : HTTPError)
  | DoesNotExist
  | KeyError (key : string)
  | ValueError (msg : string)
  | AssertionError
  | OtherException (cls msg : string).

(** [isinstance(ex, falcon.HTTPError)] *)
Definition is_HTTPError (ex : exn) : bool :=
  match ex with HTTPError_exn _ => true | _ => false end.

(** [isinstance(ex, peewee.DoesNotExist)] *)
Definition is_DoesNotExist (ex : exn) : bool :=
  match ex with DoesNotExist => true | _ => false end.

(** [isinstance(ex, Exception)] *)
Definition is_Exception (ex : exn) : bool := true.

(** What one may observe of a run: connections leased and returned, and
    resource responders entered. *)
Inductive event :=
  | Acquire
  | Release
  | Invoke (route : string) (m : Method).

Global Instance event_eq_dec : EqDecision event.
Proof. solve_decision. Defined.

(** The mutable objects a request touches: its response, the module-level
    [database], and the observation log. *)
Record Ctx := {
  response : Response;
  db : Database;
  log : list event }.

(** Computations that may raise and that mutate a state [S]; a raised
    exception keeps the mutations made so far. *)
Definition EM (S A : Type) : Type := S → (exn + A) * S.

Global Instance EM_ret {S} : MRet (EM S) := λ A a s, (inr a, s).

Global Instance EM_bind {S} : MBind (EM S) := λ A B k m s,
  match m s with
  | (inl e, s') => (inl e, s')
  | (inr a, s') => k a s'
  end.

Global Instance EM_throw {S} : MThrow exn (EM S) := λ A e s, (inl e, s).

(** [try: m except Exception as ex: h ex] *)
Definition try_except {S A} (m : EM S A) (h : exn → EM S A) : EM S A := λ s,
  match m s with
  | (inl e, s') => h e s'
  | r => r
  end.

Definition get_response : EM Ctx Response := λ c, (inr (response c), c).

Definition put_response (r : Response) : EM Ctx unit := λ c,
  (inr (), {| response := r; db := db c; log := log c |}).

Definition get_db : EM Ctx Database := λ c, (inr (db c), c).

Definition put_db (d : Database) : EM Ctx unit := λ c,
  (inr (), {| response := response c; db := d; log := log c |}).

Definition emit (ev : event) : EM Ctx unit := λ c,
  (inr (), {| response := response c; db := db c; log := log c ++ [ev] |}).

(** Attribute assignments on the response object. *)
Definition set_body (v : pyval) : EM Ctx unit :=
  r ← get_response;
  put_response {| resp_status := resp_status r; body := v;
                  content_type := content_type r; resp_headers := resp_headers r |}.

Definition set_status (st : string) : EM Ctx unit :=
  r ← get_response;
  put_response {| resp_status := st; body := body r;
                  content_type := content_type r; resp_headers := resp_headers r |}.

Definition set_content_type (ct : string) : EM Ctx unit :=
  r ← get_response;
  put_response {| resp_status := resp_status r; body := body r;
                  content_type := Some ct; resp_headers := resp_headers r |}.

Definition set_headers (hs : list (string * string)) : EM Ctx unit :=
  r ← get_response;
  put_response {| resp_status := resp_status r; body := body r;
                  content_type := content_type r;
                  resp_headers := resp_headers r ++ hs |}.

(** ** peewee: [connect], [is_closed], [close] on the pooled handle *)

Module peewee.

(** [database.connect()]: lease a connection; the pool refuses once
    [max_connections] are out. *)
Definition connect : EM Ctx unit :=
  d ← get_db;
  if decide (in_use d < max_connections)%nat then
    put_db {| closed := false; in_use := S (in_use d) |};;
    emit Acquire
  else mthrow (ValueError "Exceeded maximum connections.").

(** [database.is_closed()] *)
Definition is_closed : EM Ctx bool :=
  d ← get_db; mret (closed d).

(** [database.close()]: hand the current connection back. *)
Definition close : EM Ctx unit :=
  d ← get_db;
  put_db {| closed := true; in_use := pred (in_use d) |};;
  emit Release.

End peewee.

(** ** falcon: the application object and its request loop *)

(** A responder ([on_get], [on_post], ...) receives the request and
    mutates the response. *)
Definition Responder : Type := Request → EM Ctx unit.

(** A resource object; the classes of this module define [on_get] and
    [on_post] at most. *)
Record Resource := {
  res_on_get : option Responder;
  res_on_post : option Responder }.

(** A middleware component as [falcon.API] prepares it: the methods it
    defines, [None] for those it lacks.  No component of this module
    defines [process_resource], so that slot and [_call_rsrc_mw] are
    left out. *)
Record Component := {
  mw_process_request : option (Request → EM Ctx unit);
  mw_process_response : option (Request → option Resource → EM Ctx unit) }.

(** An entry of [API._error_handlers]: the exception class, as its
    [isinstance] test, and the handler. *)
Record ErrorHandler := {
  err_type : exn → bool;
  err_handler : exn → Request → gmap string string → EM Ctx unit }.

Record API := {
  _middleware : list Component;
  _routes : gmap string Resource;
  _error_handlers : list ErrorHandler;
  _serialize_error : Request → HTTPError → EM Ctx unit }.

Module API_.

(** The serializer an [API] starts with; [WebApi] replaces it before
    any request is served. *)
Definition default_serialize_error (req : Request) (ex : HTTPError) : EM Ctx unit :=
  set_body (PStr (to_json ex)).

(** [API.__init__] *)
Definition __init__ (middleware : list Component) : API :=
  {| _middleware := middleware;
     _routes := ∅;
     _error_handlers := [];
     _serialize_error := default_serialize_error |}.

(** The router files a template under [uri_template.strip('/')], split
    at the slashes, and looks a request up under [uri.lstrip('/')],
    split the same way.  For templates without fields, as all of this
    module are, a request finds a template exactly when the two
    stripped strings are equal; the table is keyed by the stripped
    string behind one slash. *)
Definition template_key (uri_template : string) : string :=
  "/" ++ rstrip_slash (lstrip_slash uri_template).

Definition uri_key (uri : string) : string := "/" ++ lstrip_slash uri.

(** [API.add_route(uri_template, resource)] for a template without
    fields that starts with one slash. *)
Definition add_route (uri_template : string) (resource : Resource) (self : API) : API :=
  {| _middleware := _middleware self;
     _routes := <[template_key uri_template := resource]> (_routes self);
     _error_handlers := _error_handlers self;
     _serialize_error := _serialize_error self |}.

(** [API.add_error_handler]: the newest handler is tried first. *)
Definition add_error_handler (cls : exn → bool)
    (handler : exn → Request → gmap string string → EM Ctx unit) (self : API) : API :=
  {| _middleware := _middleware self;
     _routes := _routes self;
     _error_handlers := {| err_type := cls; err_handler := handler |} :: _error_handlers self;
     _serialize_error := _serialize_error self |}.

(** [API.set_error_serializer] *)
Definition set_error_serializer
    (serializer : Request → HTTPError → EM Ctx unit) (self : API) : API :=
  {| _middleware := _middleware self;
     _routes := _routes self;
     _error_handlers := _error_handlers self;
     _serialize_error := serializer |}.

(** The local variables of [__call__] that outlive an exception: the
    stack of middleware components already entered and the resource
    the router found. *)
Record Frame := {
  middleware_stack : list Component;
  resource : option Resource;
  ctx : Ctx }.

Definition lift {A} (m : EM Ctx A) : EM Frame A := λ f,
  let (r, c) := m (ctx f) in
  (r, {| middleware_stack := middleware_stack f; resource := resource f; ctx := c |}).

Definition set_stack (stk : list Component) : EM Frame unit := λ f,
  (inr (), {| middleware_stack := stk; resource := resource f; ctx := ctx f |}).

Definition push (c : Component) : EM Frame unit := λ f,
  (inr (), {| middleware_stack := c :: middleware_stack f;
              resource := resource f; ctx := ctx f |}).

Definition set_resource (r : option Resource) : EM Frame unit := λ f,
  (inr (), {| middleware_stack := middleware_stack f; resource := r; ctx := ctx f |}).

Definition get_resource : EM Frame (option Resource) := λ f, (inr (resource f), f).

(** [_call_req_mw]: run [process_request] of each component in
    declared order; a component goes on the stack once its method has
    returned. *)
Fixpoint _call_req_mw (components : list Component) (req : Request) : EM Frame unit :=
  match components with
  | [] => mret ()
  | component :: rest =>
      match mw_process_request component with
      | Some f => lift (f req)
      | None => mret ()
      end;;
      push component;;
      _call_req_mw rest req
  end.

(** [_call_resp_mw]: pop the stack, running [process_response] of each
    component popped. *)
Fixpoint drain (stk : list Component) (req : Request) : EM Frame unit :=
  match stk with
  | [] => mret ()
  | component :: rest =>
      set_stack rest;;
      match mw_process_response component with
      | Some f => res ← get_resource; lift (f req res)
      | None => mret ()
      end;;
      drain rest req
  end.

Definition _call_resp_mw (req : Request) : EM Frame unit := λ f,
  drain (middleware_stack f) req f.

(** The responders falcon supplies itself. *)
Definition path_not_found : Responder := λ req,
  mthrow (HTTPError_exn HTTPNotFound).

Definition allowed_methods (r : Resource) : list string :=
  match res_on_get r with Some _ => ["GET"] | None => [] end ++
  match res_on_post r with Some _ => ["POST"] | None => [] end ++ ["OPTIONS"].

Definition method_not_allowed (r : Resource) : Responder := λ req,
  mthrow (HTTPError_exn (HTTPMethodNotAllowed (allowed_methods r))).

Definition default_options (r : Resource) : Responder := λ req,
  set_status HTTP_204;;
  set_headers [("Allow", json.join ", " (allowed_methods r));
               ("Content-Length", "0")].

(** The method map [add_route] builds for a resource; entering one of
    the resource's own responders is recorded in the log. *)
Definition method_map (route : string) (r : Resource) (m : Method) : Responder :=
  let own (f : Responder) : Responder := λ req, emit (Invoke route m);; f req in
  match m with
  | GET => match res_on_get r with Some f => own f | None => method_not_allowed r end
  | POST => match res_on_post r with Some f => own f | None => method_not_allowed r end
  | OPTIONS => default_options r
  | _ => method_not_allowed r
  end.

(** The key under which the router looks the request up, and what it
    finds: [self._router.find(req.path)]. *)
Definition route_key (req : Request) : string := uri_key (Request_path req).

Definition route_of (self : API) (req : Request) : option Resource :=
  _routes self !! route_key req.

(** [_get_responder] *)
Definition _get_responder (self : API) (req : Request) : Responder * option Resource :=
  match route_of self req with
  | Some r => (method_map (route_key req) r (method req), Some r)
  | None => (path_not_found, None)
  end.

(** [_compose_error_response] *)
Definition _compose_error_response (self : API) (req : Request) (ex : HTTPError)
    : EM Ctx unit :=
  set_status (status ex);;
  set_headers (headers ex);;
  if has_representation ex then _serialize_error self req ex else mret ().

(** The search of the [for ... else] loop over [_error_handlers]: the
    first entry whose class the exception is an instance of. *)
Definition find_error_handler (self : API) (ex : exn) : option ErrorHandler :=
  find (λ h, err_type h ex) (_error_handlers self).

(** [API.__call__]: request middleware, routing, the responder and
    response middleware inside the inner [try]; the registered error
    handlers in its [except Exception]; the [except HTTPError] of the
    outer [try] (its [except HTTPStatus] has no part here: nothing in
    the module raises one).  An exception that leaves the outer [try]
    reaches the WSGI server. *)
Definition __call__ (self : API) (req : Request) : EM Frame unit :=
  try_except
    (try_except
       (_call_req_mw (_middleware self) req;;
        let (responder, res) := _get_responder self req in
        set_resource res;;
        lift (responder req);;
        _call_resp_mw req)
       (λ ex,
          match find_error_handler self ex with
          | Some h => lift (err_handler h ex req ∅);; _call_resp_mw req
          | None => _call_resp_mw req;; mthrow ex
          end))
    (λ ex,
       match ex with
       | HTTPError_exn e =>
           lift (_compose_error_response self req e);; _call_resp_mw req
       | _ => mthrow ex
       end).

(** One request served against the database handle in state [d]. *)
Definition serve (self : API) (req : Request) (d : Database) : (exn + unit) * Ctx :=
  let (r, f) :=
    __call__ self req
      {| middleware_stack := []; resource := None;
         ctx := {| response := Response0; db := d; log := [] |} |} in
  (r, ctx f).

End API_.

(** ** The module: middleware *)

(** [x is not None] *)
Definition is_not_None {A} (x : option A) : bool :=
  match x with Some _ => true | None => false end.

Module PeeweeConnectionMiddleware.

(** Open a connection. *)
Definition process_request (request : Request) : EM Ctx unit :=
  peewee.connect.

(** Close the connection. *)
Definition process_response (request : Request) (resource : option Resource)
    : EM Ctx unit :=
  c ← peewee.is_closed;
  if negb c then peewee.close else mret ().

Definition component : Component :=
  {| mw_process_request := Some process_request;
     mw_process_response := Some process_response |}.

End PeeweeConnectionMiddleware.

Module ResponseFormatMiddleware.

Definition process_response (request : Request) (resource : option Resource)
    : EM Ctx unit :=
  set_content_type "application/json; charset=utf-8";;
  r ← get_response;
  set_body (PStr (json.dumps (body r))).

Definition component : Component :=
  {| mw_process_request := None;
     mw_process_response := Some process_response |}.

End ResponseFormatMiddleware.

Module AuthMiddleware.

Definition _token_is_valid (token account_id : option string) : bool :=
  is_not_None token && is_not_None account_id.

Definition challenges : list string :=
  ["Token type=" ++ String json.dquote ("Fernet" ++ String json.dquote "")].

Definition auth_href : string := "http://docs.example.com/auth".

(** The fault raised when the first test fires. *)
Definition AuthTokenRequired : HTTPError :=
  HTTPUnauthorized "Auth token required"
    "Please provide an auth token as part of the request."
    challenges auth_href.

(** The fault raised when [_token_is_valid] says no. *)
Definition AuthenticationFailed : HTTPError :=
  HTTPUnauthorized "Authentication required"
    "The provided auth token is not valid. Please request a new token and try again."
    challenges auth_href.

Definition process_request (request : Request) : EM Ctx unit :=
  let token := get_header request "Authorization" in
  let account_id := get_header request "Account-Id" in
  (if is_not_None token
   then mthrow (HTTPError_exn AuthTokenRequired)
   else mret ());;
  (if negb (_token_is_valid token account_id)
   then mthrow (HTTPError_exn AuthenticationFailed)
   else mret ()).

Definition component : Component :=
  {| mw_process_request := Some process_request;
     mw_process_response := None |}.

End AuthMiddleware.

(** [error_serialiser]: every error is serialised as JSON.  The call
    [ex.to_json()] goes through [HTTPError.to_dict], which begins with
    [assert self.has_representation]; the assignment to
    [response.body] comes after it. *)
Definition error_serialiser (request : Request) (ex : HTTPError) : EM Ctx unit :=
  if has_representation ex then set_body (PStr (to_json ex))
  else mthrow AssertionError.

(** ** The module: error handlers *)

Module CatchAllHandler.

Definition InternalServerError : HTTPError :=
  HTTPInternalServerError "Internal server error."
    "An internal error occurred. If this problem persists, please contact us.".

Definition handle (ex : exn) (request : Request) (params : gmap string string)
    : EM Ctx unit :=
  (if is_HTTPError ex then mthrow ex else mret ());;
  mthrow (HTTPError_exn InternalServerError).

End CatchAllHandler.

Module DoesNotExistHandler.

Definition handle (ex : exn) (request : Request) (params : gmap string string)
    : EM Ctx unit :=
  mthrow (HTTPError_exn HTTPNotFound).

End DoesNotExistHandler.

(** ** The module: resources *)

(** The dict literal [{'Success': True, ...}] the responders build. *)
Definition Success (rest : list (string * pyval)) : pyval :=
  PDict (("Success", PBool true) :: rest).

Module RootResource.
Definition on_get : Responder := λ request,
  set_body (PStr "Hello, World!");;
  set_status HTTP_200.
Definition resource : Resource :=
  {| res_on_get := Some on_get; res_on_post := None |}.
End RootResource.

Module LoginResource.
Definition on_get : Responder := λ request,
  set_body (Success [("Message", PStr "Here is the login page")]);;
  set_status HTTP_200.
Definition on_post : Responder := λ request,
  set_body (Success [("Message", PStr "You have successfully logged in")]);;
  set_status HTTP_200.
Definition resource : Resource :=
  {| res_on_get := Some on_get; res_on_post := Some on_post |}.
End LoginResource.

Module LogoutResource.
Definition on_get : Responder := λ request,
  set_body (Success [("Message", PStr "You have successfully logged out")]);;
  set_status HTTP_200.
Definition resource : Resource :=
  {| res_on_get := Some on_get; res_on_post := None |}.
End LogoutResource.

Module ProblemCollection.
Definition on_get : Responder := λ request,
  set_body (Success [("Problems", PList [PInt 1; PInt 2; PInt 3])]);;
  set_status HTTP_200.
Definition resource : Resource :=
  {| res_on_get := Some on_get; res_on_post := None |}.
End ProblemCollection.

Module ProblemResource.
Definition on_get : Responder := λ request,
  set_body (Success [("Problem", PDict [("Name", PStr "ProblemName")])]);;
  set_status HTTP_200.
(** The [print('here')] of the source writes to the server's standard
    output and has no part in the response. *)
Definition on_post : Responder := λ request,
  set_body (Success [("Message", PStr "You have successfully solved the problem!")]);;
  set_status HTTP_200.
Definition resource : Resource :=
  {| res_on_get := Some on_get; res_on_post := Some on_post |}.
End ProblemResource.

Module UserCollection.
Definition on_get : Responder := λ request,
  set_body (Success [("Competitors", PList [PInt 1; PInt 2; PInt 3; PInt 4; PInt 5])]);;
  set_status HTTP_200.
Definition resource : Resource :=
  {| res_on_get := Some on_get; res_on_post := None |}.
End UserCollection.

Module UserResource.
(** [request.params['id']] raises [KeyError] when the query string has
    no [id]. *)
Definition on_get : Responder := λ request,
  match params request !! "id" with
  | None => mthrow (KeyError "id")
  | Some id =>
      (if bool_decide (id = "1")
       then set_body (Success [("Competitor",
                PDict [("Name", PStr "Name"); ("Points", PInt 100)])])
       else set_body (Success [("Competitor",
                PDict [("Name", PStr "Name2"); ("Points", PInt 99)])]));;
      set_status HTTP_200
  end.
Definition resource : Resource :=
  {| res_on_get := Some on_get; res_on_post := None |}.
End UserResource.

(** ** The module: [WebApi] and the application *)

Module WebApi.

Definition register_routes (self : API) : API :=
  let self := API_.add_route "/" RootResource.resource self in
  let self := API_.add_route "/login" LoginResource.resource self in
  let self := API_.add_route "/problems" ProblemCollection.resource self in
  let self := API_.add_route "/problem" ProblemResource.resource self in
  let self := API_.add_route "/competitors" UserCollection.resource self in
  let self := API_.add_route "/competitor" UserResource.resource self in
  self.

Definition register_error_handlers (self : API) : API :=
  let self := API_.add_error_handler is_Exception CatchAllHandler.handle self in
  let self := API_.add_error_handler is_DoesNotExist DoesNotExistHandler.handle self in
  self.

Definition __init__ (middleware : list Component) : API :=
  let self := API_.__init__ middleware in
  let self := register_routes self in
  let self := register_error_handlers self in
  let self := API_.set_error_serializer error_serialiser self in
  self.

End WebApi.

Definition middleware : list Component :=
  [ PeeweeConnectionMiddleware.component;
    AuthMiddleware.component;
    ResponseFormatMiddleware.component ].

Definition application : API := WebApi.__init__ middleware.

(** ** Observations on a run *)

(** Connections leased and returned according to the log, and whether a
    resource responder was entered. *)
Definition acquires (l : list event) : nat := count_occ event_eq_dec l Acquire.
Definition releases (l : list event) : nat := count_occ event_eq_dec l Release.

Definition is_Invoke (ev : event) : bool :=
  match ev with Invoke _ _ => true | _ => false end.

Definition handler_invoked (l : list event) : bool := existsb is_Invoke l.

(** The response a client sees after [serve]: the WSGI server answers
    with the response object unless an exception escaped the
    application. *)
Definition outcome (r : (exn + unit) * Ctx) : option Response :=
  match r with
  | (inr _, c) => Some (response c)
  | (inl _, _) => None
  end.

(** An application wired like [application], with another gate in the
    place of [AuthMiddleware.process_request] and another route table.
    It serves to follow the request loop along the paths on which the
    gate lets a request through. *)
Definition wired (gate : Request → EM Ctx unit) (routes : gmap string Resource) : API :=
  {| _middleware :=
       [ PeeweeConnectionMiddleware.component;
         {| mw_process_request := Some gate; mw_process_response := None |};
         ResponseFormatMiddleware.component ];
     _routes := routes;
     _error_handlers := _error_handlers application;
     _serialize_error := error_serialiser |}.

(** The fault the error handlers registered by [WebApi] raise for an
    exception, newest handler first. *)
Definition translate (ex : exn) : HTTPError :=
  match ex with
  | DoesNotExist => HTTPNotFound
  | HTTPError_exn e => e
  | _ => CatchAllHandler.InternalServerError
  end.

(** The response after [_compose_error_response] has written error [e]
    into it. *)
Definition respond_error (e : HTTPError) (r : Response) : Response :=
  {| resp_status := status e;
     body := if has_representation e then PStr (to_json e) else body r;
     content_type := content_type r;
     resp_headers := resp_headers r ++ headers e |}.

(** The response after [ResponseFormatMiddleware.process_response]. *)
Definition formatted (r : Response) : Response :=
  {| resp_status := resp_status r;
     body := PStr (json.dumps (body r));
     content_type := Some "application/json; charset=utf-8";
     resp_headers := resp_headers r |}.

Definition with_response (r : Response) (c : Ctx) : Ctx :=
  {| response := r; db := db c; log := log c |}.

(** The context after [PeeweeConnectionMiddleware.process_response]. *)
Definition released (c : Ctx) : Ctx :=
  if closed (db c) then c
  else {| response := response c;
          db := {| closed := true; in_use := pred (in_use (db c)) |};
          log := log c ++ [Release] |}.

(** The context after a successful [database.connect()]. *)
Definition connected (c : Ctx) : Ctx :=
  {| response := response c;
     db := {| closed := false; in_use := S (in_use (db c)) |};
     log := log c ++ [Acquire] |}.

(** The context a request starts in. *)
Definition start (d : Database) : Ctx :=
  {| response := Response0; db := d; log := [] |}.

(** What the connection discipline is about: the state of the handle and
    the numbers of connections leased and returned so far. *)
Definition obs (c : Ctx) : Database * nat * nat :=
  (db c, acquires (log c), releases (log c)).

(** A step that leaves the handle alone, or that has itself closed the
    connection the way the middleware would. *)
Definition tame {A} (m : EM Ctx A) : Prop :=
  ∀ c, obs (m c).2 = obs c ∨ obs (m c).2 = obs (released c).

(** Requests served one after the other on the same handle; the logs of
    the requests are put end to end. *)
Fixpoint serve_all (self : API) (requests : list Request) (d : Database)
    : Database * list event :=
  match requests with
  | [] => (d, [])
  | request :: rest =>
      let c := (API_.serve self request d).2 in
      let (d', l) := serve_all self rest (db c) in
      (d', (log c ++ l)%list)
  end.

(** ** Reading back what [json.dumps] wrote *)

(** The text after a value inside a document that [json.dumps] wrote:
    nothing, or a comma, or a closing bracket or brace. *)
Definition ends_value (rest : string) : bool :=
  match rest with
  | EmptyString => true
  | String c _ => Ascii.eqb c "," || Ascii.eqb c "]" || Ascii.eqb c "}"
  end.

(** The first character of an integer literal. *)
Definition int_head (c : ascii) : bool := json.is_digit c || Ascii.eqb c "-".

Definition no_digit (rest : string) : Prop :=
  match rest with
  | EmptyString => True
  | String c _ => json.is_digit c = false
  end.

(** The first character of a value [json.dumps] wrote: no white space
    and no closing bracket. *)
Definition value_head (c : ascii) : bool :=
  negb (json.is_ws c) && negb (Ascii.eqb c "]").

(** The text of one item of a dict. *)
Definition item_text (kv : string * pyval) : string :=
  let (k, x) := kv in json.py_encode_basestring_ascii k ++ ": " ++ json.dumps x.

(** A value without tuples, at any depth. *)
Fixpoint tuple_free (v : pyval) : bool :=
  match v with
  | PTuple _ => false
  | PList xs => forallb tuple_free xs
  | PDict items =>
      forallb (λ kv : string * pyval, let (k, x) := kv in tuple_free x) items
  | _ => true
  end.

(** What a decoder can give back of a value: the value with a list in
    the place of every tuple. *)
Fixpoint as_json (v : pyval) : pyval :=
  match v with
  | PList xs | PTuple xs => PList (map as_json xs)
  | PDict items =>
      PDict (map (λ kv : string * pyval, let (k, x) := kv in (k, as_json x)) items)
  | _ => v
  end.

(** A header value that is there and is not the empty string: the
    reading of "non-empty" under which a pair of empty strings is not
    valid.  Kept next to [AuthMiddleware._token_is_valid] for
    comparison. *)
Definition non_empty (value : option string) : bool :=
  match value with
  | Some s => negb (String.eqb s "")
  | None => false
  end.

(** The fuel [json.scan_once] needs for a value: one unit for the value
    and what its parts need. *)
Fixpoint size (v : pyval) : nat :=
  match v with
  | PList xs | PTuple xs => S (fold_right (λ x n, size x + n)%nat O xs)
  | PDict items =>
      S (fold_right (λ (kv : string * pyval) n, let (k, x) := kv in size x + n)%nat
                    O items)
  | _ => 1%nat
  end.

(** ** Sample inputs *)

(** [Authorization: abc] and [Account-Id: 1] on [GET /]. *)
Definition request_abc : Request :=
  {| method := GET; path := "/";
     env := <["HTTP_AUTHORIZATION" := "abc"]> (<["HTTP_ACCOUNT_ID" := "1"]> ∅);
     params := ∅ |}.

(** A request without headers or query string. *)
Definition bare (m : Method) (p : string) : Request :=
  {| method := m; path := p; env := ∅; params := ∅ |}.

(** A gate that lets every request through. *)
Definition open_gate : Request → EM Ctx unit := λ _, mret ().

(** A resource whose responder hands the connection back itself. *)
Definition self_closing : Resource :=
  {| res_on_get := Some (λ request,
       PeeweeConnectionMiddleware.process_response request None);
     res_on_post := None |}.

(** The account of the specification's score example and its two
    submissions. *)
Definition account1 : models.User :=
  {| models.user_id := 1; models.username := "alice"; models.password := "";
     models.remember_token := "t1"; models.join_date := 0 |}.

Definition submissions1 : list models.Solution :=
  [ {| models.user := 1;
       models.problem := {| models.name := "ChallengeA"; models.description := "";
                            models.points := 10; models.test_file_hash := "" |};
       models.last_attempt := "h1"; models.solved := true |};
    {| models.user := 1;
       models.problem := {| models.name := "ChallengeB"; models.description := "";
                            models.points := 20; models.test_file_hash := "" |};
       models.last_attempt := "h2"; models.solved := false |} ].

(** ** Further sample inputs *)

(** [Authorization: xyz] alone, on [POST /problem?id=7]. *)
Definition request_xyz : Request :=
  {| method := POST; path := "/problem";
     env := <["HTTP_AUTHORIZATION" := "xyz"]> ∅;
     params := <["id" := "7"]> ∅ |}.

(** A query for one competitor. *)
Definition competitor_query (id : string) : Request :=
  {| method := GET; path := "/competitor"; env := ∅; params := <["id" := id]> ∅ |}.

(** The handle with every connection of the pool leased. *)
Definition database_full : Database :=
  {| closed := true; in_use := max_connections |}.

(** The submissions of [submissions1] with other flags and hashes. *)
Definition submissions2 : list models.Solution :=
  [ {| models.user := 1;
       models.problem := {| models.name := "ChallengeA"; models.description := "";
                            models.points := 10; models.test_file_hash := "" |};
       models.last_attempt := "h3"; models.solved := false |};
    {| models.user := 1;
       models.problem := {| models.name := "ChallengeB"; models.description := "";
                            models.points := 20; models.test_file_hash := "" |};
       models.last_attempt := "h4"; models.solved := true |} ].



(** * Properties *)

(** ** Running the monad *)

Lemma bind_raise {S A B} (m : EM S A) (k : A → EM S B) s e s' :
  m s = (inl e, s') → (m ≫= k) s = (inl e, s').
Proof. intros H. unfold mbind, EM_bind. by rewrite H. Qed.

Lemma bind_return {S A B} (m : EM S A) (k : A → EM S B) s a s' :
  m s = (inr a, s') → (m ≫= k) s = k a s'.
Proof. intros H. unfold mbind, EM_bind. by rewrite H. Qed.

Lemma try_except_raise {S A} (m : EM S A) h s e s' :
  m s = (inl e, s') → try_except m h s = h e s'.
Proof. intros H. unfold try_except. by rewrite H. Qed.

Lemma try_except_return {S A} (m : EM S A) h s a s' :
  m s = (inr a, s') → try_except m h s = (inr a, s').
Proof. intros H. unfold try_except. by rewrite H. Qed.

(** ** The auth gate *)

Lemma token_is_valid_iff token account_id :
  AuthMiddleware._token_is_valid token account_id = true ↔
  token ≠ None ∧ account_id ≠ None.
Proof.
  unfold AuthMiddleware._token_is_valid.
  destruct token, account_id; simpl; split; try done; intros [? ?]; done.
Qed.

Lemma auth_rejects_present request t c :
  get_header request "Authorization" = Some t →
  AuthMiddleware.process_request request c
  = (inl (HTTPError_exn AuthMiddleware.AuthTokenRequired), c).
Proof.
  intros H. unfold AuthMiddleware.process_request. rewrite H. reflexivity.
Qed.

Lemma auth_rejects_absent request c :
  get_header request "Authorization" = None →
  AuthMiddleware.process_request request c
  = (inl (HTTPError_exn AuthMiddleware.AuthenticationFailed), c).
Proof.
  intros H. unfold AuthMiddleware.process_request. rewrite H. reflexivity.
Qed.

(** The fault the gate raises for a request. *)
Lemma auth_always_rejects request c :
  ∃ e, AuthMiddleware.process_request request c = (inl (HTTPError_exn e), c) ∧
       status e = HTTP_401 ∧
       (e = AuthMiddleware.AuthTokenRequired ∨ e = AuthMiddleware.AuthenticationFailed).
Proof.
  destruct (get_header request "Authorization") as [t|] eqn:H.
  - eexists; split; [by eapply auth_rejects_present|]. split; [done | by left].
  - eexists; split; [by eapply auth_rejects_absent|]. split; [done | by right].
Qed.

(** ** The pieces of the pipeline, run *)

Lemma application_wired :
  application = wired AuthMiddleware.process_request (_routes application).
Proof. reflexivity. Qed.

Lemma lift_run {A} (m : EM Ctx A) f :
  API_.lift m f
  = ((m (API_.ctx f)).1,
     {| API_.middleware_stack := API_.middleware_stack f;
        API_.resource := API_.resource f;
        API_.ctx := (m (API_.ctx f)).2 |}).
Proof. unfold API_.lift. by destruct (m (API_.ctx f)). Qed.

Lemma connect_ok c :
  (in_use (db c) < max_connections)%nat →
  peewee.connect c = (inr (), connected c).
Proof.
  intros H. unfold peewee.connect.
  erewrite bind_return; [|reflexivity].
  destruct (decide _) as [_|]; [reflexivity | lia].
Qed.

Lemma connect_exhausted c :
  ¬ (in_use (db c) < max_connections)%nat →
  peewee.connect c = (inl (ValueError "Exceeded maximum connections."), c).
Proof.
  intros H. unfold peewee.connect.
  erewrite bind_return; [|reflexivity].
  destruct (decide _) as [|_]; [lia | reflexivity].
Qed.

Lemma release_run request res c :
  PeeweeConnectionMiddleware.process_response request res c = (inr (), released c).
Proof.
  unfold PeeweeConnectionMiddleware.process_response, released.
  erewrite bind_return; [|reflexivity].
  destruct c as [r [cl n] l]; destruct cl; reflexivity.
Qed.

Lemma format_run request res c :
  ResponseFormatMiddleware.process_response request res c
  = (inr (), with_response (formatted (response c)) c).
Proof. reflexivity. Qed.

Lemma compose_error_run gate routes request e c :
  API_._compose_error_response (wired gate routes) request e c
  = (inr (), with_response (respond_error e (response c)) c).
Proof.
  unfold API_._compose_error_response, respond_error.
  cbn [_serialize_error wired]. unfold error_serialiser.
  destruct (has_representation e); reflexivity.
Qed.

(** What the registered handlers make of an exception. *)
Lemma handlers_run gate routes ex request ps c :
  ∃ h, API_.find_error_handler (wired gate routes) ex = Some h ∧
       err_handler h ex request ps c
       = (inl (HTTPError_exn (translate ex)), c).
Proof. destruct ex; eexists; (split; [reflexivity|]); reflexivity. Qed.

Lemma drain_connection request res c :
  API_._call_resp_mw request
    {| API_.middleware_stack := [PeeweeConnectionMiddleware.component];
       API_.resource := res; API_.ctx := c |}
  = (inr (), {| API_.middleware_stack := []; API_.resource := res;
                API_.ctx := released c |}).
Proof.
  unfold API_._call_resp_mw. cbn [API_.middleware_stack API_.drain].
  erewrite bind_return; [|reflexivity].
  erewrite bind_return; [reflexivity|].
  cbn [mw_process_response PeeweeConnectionMiddleware.component].
  erewrite bind_return; [|reflexivity].
  rewrite lift_run. cbn [API_.ctx]. rewrite release_run. reflexivity.
Qed.

Lemma drain_all gate request res c :
  API_._call_resp_mw request
    {| API_.middleware_stack :=
         [ ResponseFormatMiddleware.component;
           {| mw_process_request := Some gate; mw_process_response := None |};
           PeeweeConnectionMiddleware.component ];
       API_.resource := res; API_.ctx := c |}
  = (inr (), {| API_.middleware_stack := []; API_.resource := res;
                API_.ctx := released (with_response (formatted (response c)) c) |}).
Proof.
  unfold API_._call_resp_mw. cbn [API_.middleware_stack API_.drain].
  erewrite bind_return; [|reflexivity].
  erewrite bind_return; cycle 1.
  { cbn [mw_process_response ResponseFormatMiddleware.component].
    erewrite bind_return; [|reflexivity].
    rewrite lift_run. cbn [API_.ctx]. rewrite format_run. reflexivity. }
  erewrite bind_return; [|reflexivity].
  erewrite bind_return; [|reflexivity].
  erewrite bind_return; [|reflexivity].
  erewrite bind_return; [reflexivity|].
  cbn [mw_process_response PeeweeConnectionMiddleware.component].
  erewrite bind_return; [|reflexivity].
  rewrite lift_run. cbn [API_.ctx fst snd]. rewrite release_run. reflexivity.
Qed.

(** The inner [except Exception]: the registered handler raises the
    translated fault and leaves everything else as it was. *)
Lemma inner_except_run gate routes request ex f :
  match API_.find_error_handler (wired gate routes) ex with
  | Some h => API_.lift (err_handler h ex request ∅);; API_._call_resp_mw request
  | None => API_._call_resp_mw request;; mthrow ex
  end f = (inl (HTTPError_exn (translate ex)), f).
Proof.
  destruct (handlers_run gate routes ex request ∅ (API_.ctx f)) as (h & -> & Hh).
  erewrite bind_raise; [reflexivity|].
  rewrite lift_run, Hh. by destruct f.
Qed.

(** ** The four ways through [__call__] *)

Section paths.

Variable gate : Request → EM Ctx unit.
Variable routes : gmap string Resource.
Variable request : Request.
Variable d : Database.

(** The pool has no connection left. *)
Lemma serve_exhausted :
  ¬ (in_use d < max_connections)%nat →
  API_.serve (wired gate routes) request d
  = (inr (), with_response
               (respond_error CatchAllHandler.InternalServerError Response0)
               (start d)).
Proof.
  intros Hd. unfold API_.serve, API_.__call__.
  erewrite try_except_raise; cycle 1.
  { erewrite try_except_raise; [apply inner_except_run|].
    erewrite bind_raise; [reflexivity|].
    cbn [wired _middleware API_._call_req_mw mw_process_request
         PeeweeConnectionMiddleware.component].
    erewrite bind_raise; [reflexivity|].
    rewrite lift_run. cbn [API_.ctx].
    unfold PeeweeConnectionMiddleware.process_request.
    rewrite connect_exhausted by done. reflexivity. }
  cbn [translate].
  erewrite bind_return; cycle 1.
  { rewrite lift_run, compose_error_run. reflexivity. }
  reflexivity.
Qed.

(** The gate raises. *)
Lemma serve_gate_raises ex c :
  (in_use d < max_connections)%nat →
  gate request (connected (start d)) = (inl ex, c) →
  API_.serve (wired gate routes) request d
  = (inr (), released (with_response (respond_error (translate ex) (response c)) c)).
Proof.
  intros Hd Hg. unfold API_.serve, API_.__call__.
  erewrite try_except_raise; cycle 1.
  { erewrite try_except_raise; [apply inner_except_run|].
    erewrite bind_raise; [reflexivity|].
    cbn [wired _middleware API_._call_req_mw mw_process_request
         PeeweeConnectionMiddleware.component].
    erewrite bind_return; cycle 1.
    { rewrite lift_run. cbn [API_.ctx].
      unfold PeeweeConnectionMiddleware.process_request.
      rewrite connect_ok by done. reflexivity. }
    erewrite bind_return; [|reflexivity].
    erewrite bind_raise; [reflexivity|].
    rewrite lift_run. cbn [API_.ctx fst snd].
    fold (start d). rewrite Hg. reflexivity. }
  cbv beta iota.
  erewrite bind_return; cycle 1.
  { rewrite lift_run, compose_error_run. reflexivity. }
  cbn [API_.middleware_stack API_.resource API_.ctx fst snd].
  rewrite drain_connection. reflexivity.
Qed.

(** The request middleware of [wired], when the gate lets the request
    through. *)
Lemma req_mw_passes c :
  (in_use d < max_connections)%nat →
  gate request (connected (start d)) = (inr (), c) →
  API_._call_req_mw (_middleware (wired gate routes)) request
    {| API_.middleware_stack := []; API_.resource := None; API_.ctx := start d |}
  = (inr (),
     {| API_.middleware_stack :=
          [ ResponseFormatMiddleware.component;
            {| mw_process_request := Some gate; mw_process_response := None |};
            PeeweeConnectionMiddleware.component ];
        API_.resource := None; API_.ctx := c |}).
Proof.
  intros Hd Hg.
  cbn [wired _middleware API_._call_req_mw mw_process_request
       PeeweeConnectionMiddleware.component ResponseFormatMiddleware.component].
  erewrite bind_return; cycle 1.
  { rewrite lift_run. cbn [API_.ctx].
    unfold PeeweeConnectionMiddleware.process_request.
    rewrite connect_ok by done. reflexivity. }
  erewrite bind_return; [|reflexivity].
  erewrite bind_return; cycle 1.
  { rewrite lift_run. cbn [API_.ctx fst snd]. rewrite Hg. reflexivity. }
  reflexivity.
Qed.

(** The gate lets the request through and the responder returns. *)
Lemma serve_responder_returns c c' :
  (in_use d < max_connections)%nat →
  gate request (connected (start d)) = (inr (), c) →
  (API_._get_responder (wired gate routes) request).1 request c = (inr (), c') →
  API_.serve (wired gate routes) request d
  = (inr (), released (with_response (formatted (response c')) c')).
Proof.
  intros Hd Hg Hr. unfold API_.serve, API_.__call__.
  destruct (API_._get_responder _ _) as [responder res]; simpl in Hr.
  erewrite try_except_return; cycle 1.
  { erewrite try_except_return; [reflexivity|].
    erewrite bind_return; [|by apply req_mw_passes].
    erewrite bind_return; [|reflexivity].
    erewrite bind_return; cycle 1.
    { rewrite lift_run. cbn [API_.ctx fst snd]. rewrite Hr. reflexivity. }
    cbn [API_.middleware_stack API_.resource API_.ctx fst snd].
    apply drain_all. }
  reflexivity.
Qed.

(** The gate lets the request through and the responder raises. *)
Lemma serve_responder_raises c ex c' :
  (in_use d < max_connections)%nat →
  gate request (connected (start d)) = (inr (), c) →
  (API_._get_responder (wired gate routes) request).1 request c = (inl ex, c') →
  API_.serve (wired gate routes) request d
  = (inr (), released (with_response
                         (formatted (respond_error (translate ex) (response c')))
                         c')).
Proof.
  intros Hd Hg Hr. unfold API_.serve, API_.__call__.
  destruct (API_._get_responder _ _) as [responder res]; simpl in Hr.
  erewrite try_except_raise; cycle 1.
  { erewrite try_except_raise; [apply inner_except_run|].
    erewrite bind_return; [|by apply req_mw_passes].
    erewrite bind_return; [|reflexivity].
    erewrite bind_raise; [reflexivity|].
    rewrite lift_run. cbn [API_.ctx fst snd]. rewrite Hr. reflexivity. }
  cbv beta iota.
  erewrite bind_return; cycle 1.
  { rewrite lift_run, compose_error_run. reflexivity. }
  cbn [API_.middleware_stack API_.resource API_.ctx fst snd].
  rewrite drain_all. reflexivity.
Qed.

End paths.

(** ** The application as a whole *)

(** Every request the application serves ends in one of two ways: the
    pool is exhausted and the client gets the masked 500, or the gate
    raises and the client gets the gate's 401. *)
Lemma serve_application_exhausted request d :
  ¬ (in_use d < max_connections)%nat →
  API_.serve application request d
  = (inr (), {| response := respond_error CatchAllHandler.InternalServerError Response0;
                db := d; log := [] |}).
Proof. intros H. rewrite application_wired. by rewrite serve_exhausted. Qed.

Lemma serve_application_rejected request d e :
  (in_use d < max_connections)%nat →
  (∀ c, AuthMiddleware.process_request request c = (inl (HTTPError_exn e), c)) →
  API_.serve application request d
  = (inr (), {| response := respond_error e Response0;
                db := {| closed := true; in_use := in_use d |};
                log := [Acquire; Release] |}).
Proof.
  intros Hd Ha. rewrite application_wired.
  erewrite serve_gate_raises; [|done|apply Ha]. reflexivity.
Qed.

Lemma application_never_invokes request d :
  handler_invoked (log (API_.serve application request d).2) = false.
Proof.
  destruct (decide (in_use d < max_connections)%nat) as [Hd|Hd].
  - destruct (get_header request "Authorization") as [t|] eqn:Ht.
    + rewrite (serve_application_rejected request d AuthMiddleware.AuthTokenRequired);
        [reflexivity | done | intros c; by eapply auth_rejects_present].
    + rewrite (serve_application_rejected request d AuthMiddleware.AuthenticationFailed);
        [reflexivity | done | intros c; by eapply auth_rejects_absent].
  - by rewrite serve_application_exhausted.
Qed.

(** ** The claims about the auth gate *)

(** C1.  A request whose [Authorization] header is present, whatever its
    value, makes [AuthMiddleware.process_request] raise the
    [HTTPUnauthorized] fault "Auth token required": status 401, the
    challenge [Token type="Fernet"] and the documentation link.  Served by
    the application, such a request enters no resource responder, and
    the client receives that fault whenever the pool had a connection to
    lease. *)
Theorem C1_token_present_is_rejected request t :
  get_header request "Authorization" = Some t →
  (∀ c, AuthMiddleware.process_request request c
        = (inl (HTTPError_exn AuthMiddleware.AuthTokenRequired), c)) ∧
  status AuthMiddleware.AuthTokenRequired = "401 Unauthorized" ∧
  title AuthMiddleware.AuthTokenRequired = Some "Auth token required" ∧
  headers AuthMiddleware.AuthTokenRequired
  = [("WWW-Authenticate",
      "Token type=" ++ String json.dquote ("Fernet" ++ String json.dquote ""))] ∧
  href AuthMiddleware.AuthTokenRequired = Some "http://docs.example.com/auth" ∧
  (∀ d, handler_invoked (log (API_.serve application request d).2) = false) ∧
  (∀ d, (in_use d < max_connections)%nat →
        outcome (API_.serve application request d)
        = Some (respond_error AuthMiddleware.AuthTokenRequired Response0)).
Proof.
  intros Ht. repeat split.
  - intros c. by eapply auth_rejects_present.
  - intros d. apply application_never_invokes.
  - intros d Hd.
    rewrite (serve_application_rejected request d AuthMiddleware.AuthTokenRequired);
      [reflexivity | done | intros c; by eapply auth_rejects_present].
Qed.

(** C4, as the code has it.  [_token_is_valid] accepts a pair exactly
    when both the token and the account identifier are there (neither is
    [None]); a value that is there counts whatever it is, the empty
    string included.  When the first test of the gate has not fired and
    the pair is not valid, the gate raises the [HTTPUnauthorized] fault
    "Authentication required": status 401 with the challenge; the
    application enters no resource responder and answers with that
    fault whenever the pool had a connection to lease. *)
Theorem C4_invalid_pair_is_rejected request :
  (∀ token account_id,
     AuthMiddleware._token_is_valid token account_id = true ↔
     token ≠ None ∧ account_id ≠ None) ∧
  (∀ t a, AuthMiddleware._token_is_valid (Some t) (Some a) = true) ∧
  (is_not_None (get_header request "Authorization") = false →
   AuthMiddleware._token_is_valid (get_header request "Authorization")
     (get_header request "Account-Id") = false →
   (∀ c, AuthMiddleware.process_request request c
         = (inl (HTTPError_exn AuthMiddleware.AuthenticationFailed), c)) ∧
   status AuthMiddleware.AuthenticationFailed = "401 Unauthorized" ∧
   title AuthMiddleware.AuthenticationFailed = Some "Authentication required" ∧
   headers AuthMiddleware.AuthenticationFailed
   = [("WWW-Authenticate", json.join ", " AuthMiddleware.challenges)] ∧
   (∀ d, handler_invoked (log (API_.serve application request d).2) = false) ∧
   (∀ d, (in_use d < max_connections)%nat →
         outcome (API_.serve application request d)
         = Some (respond_error AuthMiddleware.AuthenticationFailed Response0))).
Proof.
  split; [apply token_is_valid_iff|]. split; [done|].
  intros Hpresent Hvalid.
  assert (get_header request "Authorization" = None) as Ht
    by (by destruct (get_header request "Authorization")).
  repeat split.
  - intros c. by apply auth_rejects_absent.
  - intros d. apply application_never_invokes.
  - intros d Hd.
    rewrite (serve_application_rejected request d AuthMiddleware.AuthenticationFailed);
      [reflexivity | done | intros c; by apply auth_rejects_absent].
Qed.

(** C4, as the claim states it, fails on the pair of two empty strings:
    neither value is non-empty, and [_token_is_valid] accepts the pair. *)
Lemma C4_empty_values_are_accepted :
  ¬ (AuthMiddleware._token_is_valid (Some "") (Some "") = true ↔
     non_empty (Some "") = true ∧ non_empty (Some "") = true).
Proof. intros [H _]. destruct (H eq_refl) as [Hne _]. discriminate Hne. Qed.

(** C10.  Whatever the two headers of a request are, the gate raises an
    [HTTPUnauthorized] fault: "Auth token required" when the token is
    there, and "Authentication required" when it is not, because
    [_token_is_valid None account_id] is false for every [account_id].
    Hence the gate never returns, and no request served by the
    application enters a resource responder. *)
Theorem C10_gate_rejects_every_request request :
  (∀ c, match get_header request "Authorization" with
        | Some _ =>
            AuthMiddleware.process_request request c
            = (inl (HTTPError_exn AuthMiddleware.AuthTokenRequired), c)
        | None =>
            AuthMiddleware.process_request request c
            = (inl (HTTPError_exn AuthMiddleware.AuthenticationFailed), c)
        end) ∧
  (∀ account_id, AuthMiddleware._token_is_valid None account_id = false) ∧
  status AuthMiddleware.AuthTokenRequired = HTTP_401 ∧
  status AuthMiddleware.AuthenticationFailed = HTTP_401 ∧
  (∀ c a c', AuthMiddleware.process_request request c ≠ (inr a, c')) ∧
  (∀ d, handler_invoked (log (API_.serve application request d).2) = false).
Proof.
  repeat split.
  - intros c. destruct (get_header request "Authorization") eqn:Ht.
    + by eapply auth_rejects_present.
    + by apply auth_rejects_absent.
  - intros c a c'. destruct (auth_always_rejects request c) as (e & -> & _). done.
  - intros d. apply application_never_invokes.
Qed.

(** Every pair of header values is the pair of some request. *)
Lemma every_pair_is_sent (token account_id : option string) :
  ∃ request, get_header request "Authorization" = token ∧
             get_header request "Account-Id" = account_id.
Proof.
  exists {| method := GET; path := "/";
            env := match token with
                   | Some t => <["HTTP_AUTHORIZATION" := t]> ∅ | None => ∅ end
                   ∪ match account_id with
                     | Some a => <["HTTP_ACCOUNT_ID" := a]> ∅ | None => ∅ end;
            params := ∅ |}.
  unfold get_header. cbn [env wsgi_name].
  change ("HTTP_" ++ _) with "HTTP_AUTHORIZATION" at 1.
  change ("HTTP_" ++ _) with "HTTP_ACCOUNT_ID".
  destruct token, account_id; split; by simplify_map_eq.
Qed.

Lemma C1_token_present_is_rejected_witness :
  get_header request_abc "Authorization" = Some "abc" ∧
  outcome (API_.serve application request_abc database0)
  = Some (respond_error AuthMiddleware.AuthTokenRequired Response0).
Proof.
  split; [reflexivity|].
  apply (C1_token_present_is_rejected request_abc "abc"); [reflexivity|].
  unfold database0, max_connections; simpl; lia.
Defined.

Lemma C4_invalid_pair_is_rejected_witness :
  is_not_None (get_header (bare GET "/") "Authorization") = false ∧
  AuthMiddleware._token_is_valid (get_header (bare GET "/") "Authorization")
    (get_header (bare GET "/") "Account-Id") = false ∧
  outcome (API_.serve application (bare GET "/") database0)
  = Some (respond_error AuthMiddleware.AuthenticationFailed Response0).
Proof.
  split; [reflexivity|]. split; [reflexivity|].
  apply (C4_invalid_pair_is_rejected (bare GET "/")); [reflexivity|reflexivity|].
  unfold database0, max_connections; simpl; lia.
Defined.

(** ** The error translator *)

(** C7.  The handlers [WebApi.register_error_handlers] registers turn a
    [DoesNotExist] into [HTTPNotFound] (status 404) whatever else holds;
    they raise a [falcon.HTTPError] again as it is; and they replace
    every other exception by the one [HTTPInternalServerError] with the
    fixed title and description, in which nothing of the exception
    appears.  The handler found first is the one registered last. *)
Theorem C7_error_translation (ex : exn) request ps c :
  ∃ h, API_.find_error_handler application ex = Some h ∧
       err_handler h ex request ps c
       = (inl (HTTPError_exn
                 match ex with
                 | DoesNotExist => HTTPNotFound
                 | HTTPError_exn e => e
                 | _ => HTTPInternalServerError "Internal server error."
                          "An internal error occurred. If this problem persists, please contact us."
                 end), c) ∧
       status HTTPNotFound = "404 Not Found" ∧
       status CatchAllHandler.InternalServerError = "500 Internal Server Error".
Proof. destruct ex; eexists; (split; [reflexivity|]); repeat split. Qed.

(** In the request loop: a responder that raises [KeyError] is answered
    with the masked 500. *)
Example responder_fault_is_masked :
  outcome (API_.serve (wired open_gate (_routes application))
                      (bare GET "/competitor") database0)
  = Some (formatted (respond_error CatchAllHandler.InternalServerError Response0)).
Proof. reflexivity. Qed.

(** ** Routes and responders *)

(** The route table of the application, entry by entry. *)
Lemma application_routes :
  _routes application
  = <["/competitor" := UserResource.resource]>
      (<["/competitors" := UserCollection.resource]>
         (<["/problem" := ProblemResource.resource]>
            (<["/problems" := ProblemCollection.resource]>
               (<["/login" := LoginResource.resource]>
                  (<["/" := RootResource.resource]> ∅))))).
Proof. reflexivity. Qed.

Lemma registered_routes p :
  is_Some (_routes application !! p) ↔
  p ∈ ["/"; "/login"; "/problems"; "/problem"; "/competitors"; "/competitor"].
Proof.
  rewrite application_routes.
  rewrite !lookup_insert_is_Some, lookup_empty, is_Some_alt.
  rewrite !elem_of_cons, elem_of_nil. intuition (subst; auto; congruence).
Qed.

(** A request whose path is a registered template as it is written is
    looked up under that very path. *)
Lemma route_key_registered request :
  is_Some (_routes application !! path request) →
  API_.route_key request = path request.
Proof.
  rewrite registered_routes, !elem_of_cons, elem_of_nil.
  unfold API_.route_key, Request_path.
  intros [H|[H|[H|[H|[H|[H|[]]]]]]]; rewrite H; reflexivity.
Qed.

Lemma get_responder_registered gate request r :
  _routes application !! path request = Some r →
  API_._get_responder (wired gate (_routes application)) request
  = (API_.method_map (path request) r (method request), Some r).
Proof.
  intros Hr. unfold API_._get_responder, API_.route_of. cbn [_routes wired].
  rewrite route_key_registered by (by rewrite Hr). by rewrite Hr.
Qed.

(** C3, as the code has it.  [RootResource.on_get] sets the plain
    greeting and status 200, and the formatter turns the greeting into
    the JSON string; behind a gate that lets requests through, [GET /]
    is answered so.  But the application's gate rejects a request that
    carries no headers: the answer is the 401 "Authentication required"
    and [RootResource.on_get] is not entered. *)
Theorem C3_root_greeting_behind_the_gate request :
  method request = GET → path request = "/" → env request = ∅ →
  (∀ c, RootResource.on_get request c
        = (inr (), with_response
                     {| resp_status := "200 OK"; body := PStr "Hello, World!";
                        content_type := content_type (response c);
                        resp_headers := resp_headers (response c) |} c)) ∧
  json.dumps (PStr "Hello, World!")
  = String json.dquote ("Hello, World!" ++ String json.dquote "") ∧
  (∀ d, (in_use d < max_connections)%nat →
        outcome (API_.serve (wired open_gate (_routes application)) request d)
        = Some {| resp_status := "200 OK";
                  body := PStr (json.dumps (PStr "Hello, World!"));
                  content_type := Some "application/json; charset=utf-8";
                  resp_headers := [] |}) ∧
  (∀ d, handler_invoked (log (API_.serve application request d).2) = false) ∧
  (∀ d, (in_use d < max_connections)%nat →
        outcome (API_.serve application request d)
        = Some (respond_error AuthMiddleware.AuthenticationFailed Response0)) ∧
  resp_status (respond_error AuthMiddleware.AuthenticationFailed Response0)
  = "401 Unauthorized".
Proof.
  intros Hm Hp He. repeat split.
  - intros d Hd.
    erewrite serve_responder_returns; [| done | reflexivity |].
    2:{ rewrite (get_responder_registered open_gate request RootResource.resource)
          by (by rewrite Hp).
        rewrite Hp, Hm. reflexivity. }
    reflexivity.
  - intros d. apply application_never_invokes.
  - intros d Hd.
    rewrite (serve_application_rejected request d AuthMiddleware.AuthenticationFailed);
      [reflexivity | done |].
    intros c. apply auth_rejects_absent. unfold get_header. by rewrite He.
Qed.

Lemma C3_root_greeting_behind_the_gate_witness :
  outcome (API_.serve application (bare GET "/") database0)
  = Some (respond_error AuthMiddleware.AuthenticationFailed Response0).
Proof.
  apply (C3_root_greeting_behind_the_gate (bare GET "/"));
    [reflexivity | reflexivity | reflexivity |].
  unfold database0, max_connections; simpl; lia.
Defined.

(** C3, as the claim states it, fails on [GET /] without headers: the
    response is not a 200 carrying the greeting. *)
Lemma C3_no_headers_not_greeted :
  ¬ ∃ r, outcome (API_.serve application (bare GET "/") database0) = Some r ∧
         resp_status r = "200 OK" ∧
         body r = PStr (json.dumps (PStr "Hello, World!")).
Proof. intros (r & Hr & Hs & _). vm_compute in Hr. by simplify_eq. Qed.

(** C5, on the code.  [register_routes] has no entry for [/logout]:
    [LogoutResource] is defined, with the payload the claim names, but
    never added.  So [GET /logout] finds no route; the application's
    gate answers it with a 401, and behind a gate that lets requests
    through the answer is the 404 of [path_not_found].
    [LogoutResource.on_get] is entered in neither case. *)
Theorem C5_logout_is_not_routed :
  _routes application !! "/logout" = None ∧
  (∀ c, LogoutResource.on_get (bare GET "/logout") c
        = (inr (), with_response
                     {| resp_status := "200 OK";
                        body := PDict [("Success", PBool true);
                                       ("Message", PStr "You have successfully logged out")];
                        content_type := content_type (response c);
                        resp_headers := resp_headers (response c) |} c)) ∧
  (API_.serve application (bare GET "/logout") database0).1 = inr () ∧
  resp_status (response (API_.serve application (bare GET "/logout") database0).2)
  = "401 Unauthorized" ∧
  log (API_.serve application (bare GET "/logout") database0).2 = [Acquire; Release] ∧
  resp_status
    (response (API_.serve (wired open_gate (_routes application))
                          (bare GET "/logout") database0).2)
  = "404 Not Found" ∧
  log (API_.serve (wired open_gate (_routes application))
                  (bare GET "/logout") database0).2 = [Acquire; Release].
Proof. repeat split. Qed.

(** How the router matches: one trailing slash and the leading slashes
    of the request's path do not count; anything else does. *)
Example trailing_slash_is_routed :
  API_.route_of application (bare GET "/login/") = Some LoginResource.resource ∧
  API_.route_of application (bare GET "//login") = Some LoginResource.resource ∧
  API_.route_of application (bare GET "") = Some RootResource.resource ∧
  API_.route_of application (bare GET "/login//") = None ∧
  API_.route_of application (bare GET "/Login") = None ∧
  API_.route_of application (bare GET "/login/x") = None.
Proof. repeat split. Qed.

Lemma route_of_None request :
  API_.route_of application request = None ↔
  API_.route_key request ∉
    ["/"; "/login"; "/problems"; "/problem"; "/competitors"; "/competitor"].
Proof.
  unfold API_.route_of. rewrite <- registered_routes, eq_None_not_Some. done.
Qed.

(** C9, as the code has it.  A request matches a route when its path,
    one trailing slash and the leading slashes apart, is the path of the
    route; there are no wildcards.  A request that matches no route
    resolves to falcon's [path_not_found], which raises [HTTPNotFound]
    (404), and no resource responder is entered.  The gate runs before
    routing: when it raises, as [AuthMiddleware] does for a request
    without [Authorization] header, the client gets the gate's fault and
    not the 404; when it lets the request through, the client gets the
    404. *)
Theorem C9_unrouted_path request :
  API_.route_of application request = None →
  (API_.route_key request ∉
     ["/"; "/login"; "/problems"; "/problem"; "/competitors"; "/competitor"]) ∧
  API_.route_key request = ("/" ++ lstrip_slash (Request_path request)) ∧
  API_._get_responder application request = (API_.path_not_found, None) ∧
  (∀ c, API_.path_not_found request c = (inl (HTTPError_exn HTTPNotFound), c)) ∧
  status HTTPNotFound = "404 Not Found" ∧
  (∀ d, handler_invoked (log (API_.serve application request d).2) = false) ∧
  (∀ gate d c,
     (in_use d < max_connections)%nat →
     gate request (connected (start d)) = (inr (), c) →
     API_.serve (wired gate (_routes application)) request d
     = (inr (), released (with_response
                            (formatted (respond_error HTTPNotFound (response c))) c))) ∧
  (∀ gate d ex c,
     (in_use d < max_connections)%nat →
     gate request (connected (start d)) = (inl ex, c) →
     API_.serve (wired gate (_routes application)) request d
     = (inr (), released (with_response
                            (respond_error (translate ex) (response c)) c))) ∧
  (get_header request "Authorization" = None →
   ∀ d, (in_use d < max_connections)%nat →
        outcome (API_.serve application request d)
        = Some (respond_error AuthMiddleware.AuthenticationFailed Response0)).
Proof.
  intros Hroute.
  assert (API_._get_responder application request = (API_.path_not_found, None)) as Hresp.
  { unfold API_._get_responder. by rewrite Hroute. }
  split; [by apply route_of_None|]. split; [reflexivity|].
  repeat split.
  - done.
  - intros d. apply application_never_invokes.
  - intros gate d c Hd Hg.
    rewrite (serve_responder_raises gate (_routes application) request d c
               (HTTPError_exn HTTPNotFound) c); [reflexivity | done | done |].
    unfold API_._get_responder.
    change (API_.route_of (wired gate (_routes application)) request)
      with (API_.route_of application request).
    rewrite Hroute. reflexivity.
  - intros gate d ex c Hd Hg. by apply serve_gate_raises.
  - intros Ht d Hd.
    rewrite (serve_application_rejected request d AuthMiddleware.AuthenticationFailed);
      [reflexivity | done | intros c; by apply auth_rejects_absent].
Qed.

Lemma C9_unrouted_path_witness :
  API_.route_of application (bare GET "/nope") = None ∧
  outcome (API_.serve application (bare GET "/nope") database0)
  = Some (respond_error AuthMiddleware.AuthenticationFailed Response0).
Proof.
  split; [reflexivity|].
  apply (C9_unrouted_path (bare GET "/nope")); [reflexivity | reflexivity |].
  unfold database0, max_connections; simpl; lia.
Defined.

(** C9, as the claim states it, fails on [GET /nope] without headers:
    the request matches no route and the response is not a 404. *)
Lemma C9_unrouted_is_not_answered_404 :
  API_.route_of application (bare GET "/nope") = None ∧
  ¬ ∃ r, outcome (API_.serve application (bare GET "/nope") database0) = Some r ∧
         resp_status r = status HTTPNotFound.
Proof.
  split; [reflexivity|].
  intros (r & Hr & Hs). vm_compute in Hr. by simplify_eq.
Qed.

(** ** The score *)

Lemma py_sum_cons x (l : list Z) : models.py_sum (x :: l) = x + models.py_sum l.
Proof.
  unfold models.py_sum. cbn [fold_left].
  change (0 + x) with x.
  assert (∀ a b, fold_left Z.add l (a + b) = a + fold_left Z.add l b) as H.
  { induction l as [|y l IH]; intros a b; cbn [fold_left]; [done|].
    by rewrite <- Z.add_assoc, IH. }
  rewrite <- (H x 0). f_equal. lia.
Qed.

(** [get_points] adds up the points of every solution row of the user:
    those of the solved ones and those of the others. *)
Lemma get_points_split table self :
  models.get_points table self
  = models.derived_score_spec table self
    + models.py_sum (map (λ x, models.points (models.problem x))
                         (filter (λ x, models.solved x = false)
                                 (models.solutions table self))).
Proof.
  unfold models.get_points, models.derived_score_spec.
  induction (models.solutions table self) as [|x l IH]; [reflexivity|].
  cbn [map]. rewrite py_sum_cons, IH, !filter_cons.
  destruct (models.solved x) eqn:Hs.
  - destruct (decide (true = true)) as [_|]; [|done].
    destruct (decide (true = false)) as [|_]; [done|].
    cbn [map]. rewrite py_sum_cons. lia.
  - destruct (decide (false = true)) as [|_]; [done|].
    destruct (decide (false = false)) as [_|]; [|done].
    cbn [map]. rewrite py_sum_cons. lia.
Qed.

(** C2, on the code.  [get_points] adds the points of the unsolved
    submissions to those of the solved ones: the [solved] flag is not
    looked at.  For the account with a solved submission worth 10 and an
    unsolved one worth 20 it returns 30, where the sum over the solved
    submissions is 10. *)
Theorem C2_get_points_counts_unsolved :
  (∀ table self,
     models.get_points table self
     = models.derived_score_spec table self
       + models.py_sum (map (λ x, models.points (models.problem x))
                            (filter (λ x, models.solved x = false)
                                    (models.solutions table self)))) ∧
  models.get_points submissions1 account1 = 30 ∧
  models.derived_score_spec submissions1 account1 = 10 ∧
  models.get_points submissions1 account1
  ≠ models.derived_score_spec submissions1 account1.
Proof.
  split; [apply get_points_split|]. repeat split. vm_compute. discriminate.
Qed.

(** ** The connection discipline *)

Lemma release_closed_is_noop request res c :
  closed (db c) = true →
  PeeweeConnectionMiddleware.process_response request res c = (inr (), c).
Proof. intros H. rewrite release_run. unfold released. by rewrite H. Qed.

Lemma acquires_app l1 l2 : acquires (l1 ++ l2) = (acquires l1 + acquires l2)%nat.
Proof. apply count_occ_app. Qed.

Lemma releases_app l1 l2 : releases (l1 ++ l2) = (releases l1 + releases l2)%nat.
Proof. apply count_occ_app. Qed.

Lemma obs_released c :
  obs (released c)
  = if closed (db c) then obs c
    else ({| closed := true; in_use := pred (in_use (db c)) |},
          acquires (log c), S (releases (log c))).
Proof.
  unfold released. destruct (closed (db c)); [done|].
  unfold obs. cbn [db log]. rewrite acquires_app, releases_app.
  cbn. f_equal; [f_equal|]; lia.
Qed.

Lemma obs_released_proper c1 c2 :
  obs c1 = obs c2 → obs (released c1) = obs (released c2).
Proof.
  intros H. rewrite !obs_released.
  unfold obs in *. injection H as -> -> ->. done.
Qed.

Lemma released_released c : released (released c) = released c.
Proof.
  unfold released. destruct (closed (db c)) eqn:H; [by rewrite H | reflexivity].
Qed.

(** After a tame step the release still brings the handle to the same
    state. *)
Lemma tame_settles {A} (m : EM Ctx A) c :
  tame m → obs (released (m c).2) = obs (released c).
Proof.
  intros H. destruct (H c) as [Ho|Ho].
  - by apply obs_released_proper.
  - rewrite (obs_released_proper _ _ Ho). by rewrite released_released.
Qed.

Lemma obs_with_response r c : obs (with_response r c) = obs c.
Proof. reflexivity. Qed.

Lemma obs_emit_Invoke route m c : obs (emit (Invoke route m) c).2 = obs c.
Proof.
  unfold obs, emit. cbn [snd db log].
  rewrite acquires_app, releases_app. cbn. f_equal; [f_equal|]; lia.
Qed.

Section discipline.

Variable gate : Request → EM Ctx unit.
Variable routes : gmap string Resource.

Hypothesis gate_tame : ∀ request, tame (gate request).
Hypothesis responders_tame :
  ∀ p r f, routes !! p = Some r →
           res_on_get r = Some f ∨ res_on_post r = Some f →
           ∀ request, tame (f request).

Lemma responder_settles request c :
  obs (released ((API_._get_responder (wired gate routes) request).1 request c).2)
  = obs (released c).
Proof.
  unfold API_._get_responder, API_.route_of. cbn [_routes wired].
  destruct (routes !! API_.route_key request) as [r|] eqn:Hr; [|reflexivity].
  cbn [fst]. unfold API_.method_map.
  assert (∀ f, res_on_get r = Some f ∨ res_on_post r = Some f →
               obs (released ((emit (Invoke (API_.route_key request) (method request));;
                               f request) c).2) = obs (released c)) as Hown.
  { intros f Hf.
    erewrite bind_return; [|reflexivity].
    rewrite (tame_settles (f request)) by eauto.
    apply obs_released_proper, obs_emit_Invoke. }
  destruct (method request); try (apply obs_released_proper; reflexivity).
  - destruct (res_on_get r) as [f|] eqn:Hf; [|reflexivity]. apply Hown; auto.
  - destruct (res_on_post r) as [f|] eqn:Hf; [|reflexivity]. apply Hown; auto.
Qed.

(** One request on a pool that has a connection to lease. *)
Lemma serve_obs request d :
  (in_use d < max_connections)%nat →
  obs (API_.serve (wired gate routes) request d).2
  = ({| closed := true; in_use := in_use d |}, 1%nat, 1%nat).
Proof.
  intros Hd.
  assert (obs (released (connected (start d)))
          = ({| closed := true; in_use := in_use d |}, 1%nat, 1%nat)) as HX
    by reflexivity.
  destruct (gate request (connected (start d))) as [[ex|[]] c] eqn:Hg.
  - erewrite serve_gate_raises; [|done|done]. cbn [snd].
    rewrite (obs_released_proper _ c) by apply obs_with_response.
    rewrite <- HX.
    replace c with (gate request (connected (start d))).2 by (by rewrite Hg).
    by apply tame_settles.
  - assert (obs (released c) = ({| closed := true; in_use := in_use d |}, 1%nat, 1%nat))
      as Hc.
    { rewrite <- HX.
      replace c with (gate request (connected (start d))).2 by (by rewrite Hg).
      by apply tame_settles. }
    destruct ((API_._get_responder (wired gate routes) request).1 request c)
      as [[ex|[]] c'] eqn:Hr.
    + erewrite serve_responder_raises; [|done|done|done]. cbn [snd].
      rewrite (obs_released_proper _ c') by apply obs_with_response.
      rewrite <- Hc.
      replace c' with ((API_._get_responder (wired gate routes) request).1 request c).2
        by (by rewrite Hr).
      apply responder_settles.
    + erewrite serve_responder_returns; [|done|done|done]. cbn [snd].
      rewrite (obs_released_proper _ c') by apply obs_with_response.
      rewrite <- Hc.
      replace c' with ((API_._get_responder (wired gate routes) request).1 request c).2
        by (by rewrite Hr).
      apply responder_settles.
Qed.

(** One request on an exhausted pool: nothing leased, nothing returned. *)
Lemma serve_obs_exhausted request d :
  ¬ (in_use d < max_connections)%nat →
  obs (API_.serve (wired gate routes) request d).2 = (d, 0%nat, 0%nat).
Proof. intros Hd. by rewrite serve_exhausted. Qed.

Lemma serve_all_balanced requests d :
  closed d = true →
  acquires (serve_all (wired gate routes) requests d).2
  = releases (serve_all (wired gate routes) requests d).2 ∧
  (serve_all (wired gate routes) requests d).1 = d.
Proof.
  intros Hc. induction requests as [|request rest IH]; [done|].
  cbn [serve_all].
  assert (db (API_.serve (wired gate routes) request d).2 = d ∧
          acquires (log (API_.serve (wired gate routes) request d).2)
          = releases (log (API_.serve (wired gate routes) request d).2))
    as [Hdb Hlog].
  { destruct (decide (in_use d < max_connections)%nat) as [Hd|Hd].
    - pose proof (serve_obs request d Hd) as H. unfold obs in H.
      injection H as H1 H2 H3. rewrite H1, H2, H3.
      split; [|done]. destruct d; simpl in *; by subst.
    - pose proof (serve_obs_exhausted request d Hd) as H. unfold obs in H.
      injection H as H1 H2 H3. by rewrite H1, H2, H3. }
  rewrite Hdb.
  destruct (serve_all (wired gate routes) rest d) as [d' l]. cbn [fst snd] in *.
  rewrite acquires_app, releases_app. destruct IH as [-> ->]. by rewrite Hlog.
Qed.

End discipline.

Lemma auth_tame request : tame (AuthMiddleware.process_request request).
Proof.
  intros c. left.
  destruct (auth_always_rejects request c) as (e & -> & _). reflexivity.
Qed.

Lemma application_responders_tame p r f :
  _routes application !! p = Some r →
  res_on_get r = Some f ∨ res_on_post r = Some f →
  ∀ request, tame (f request).
Proof.
  rewrite application_routes.
  rewrite !lookup_insert_Some, lookup_empty.
  intros Hr Hf request c. left.
  destruct Hr as [[_ <-]|[_ [[_ <-]|[_ [[_ <-]|[_ [[_ <-]|[_ [[_ <-]|[_ [[_ <-]|[_ ?]]]]]]]]]]]];
    [..|done];
    (destruct Hf as [Hf|Hf]; cbn in Hf; simplify_eq; try reflexivity).
  unfold UserResource.on_get.
  destruct (params request !! "id") as [id|]; [|reflexivity].
  destruct (bool_decide (id = "1")); reflexivity.
Qed.

(** C6.  In an application wired like this one, whatever the gate and
    the responders do short of touching the handle otherwise than by
    closing the connection: a request that leased a connection has
    returned it exactly once when [__call__] is over, on every way
    through (the gate raises, the responder raises, the responder
    returns); [process_response] on a handle that is already closed
    does nothing and raises nothing; a request that found the pool
    exhausted leased and returned nothing; so over any sequence of
    requests as many connections are returned as were leased, and the
    handle ends as it began. *)
Theorem C6_connection_released_exactly_once gate routes :
  (∀ request, tame (gate request)) →
  (∀ p r f, routes !! p = Some r →
            res_on_get r = Some f ∨ res_on_post r = Some f →
            ∀ request, tame (f request)) →
  (∀ request res c,
     closed (db c) = true →
     PeeweeConnectionMiddleware.process_response request res c = (inr (), c)) ∧
  (∀ request d,
     (in_use d < max_connections)%nat →
     acquires (log (API_.serve (wired gate routes) request d).2) = 1%nat ∧
     releases (log (API_.serve (wired gate routes) request d).2) = 1%nat ∧
     db (API_.serve (wired gate routes) request d).2
     = {| closed := true; in_use := in_use d |}) ∧
  (∀ request d,
     ¬ (in_use d < max_connections)%nat →
     acquires (log (API_.serve (wired gate routes) request d).2) = 0%nat ∧
     releases (log (API_.serve (wired gate routes) request d).2) = 0%nat ∧
     db (API_.serve (wired gate routes) request d).2 = d) ∧
  (∀ requests d,
     closed d = true →
     acquires (serve_all (wired gate routes) requests d).2
     = releases (serve_all (wired gate routes) requests d).2 ∧
     (serve_all (wired gate routes) requests d).1 = d).
Proof.
  intros Hgate Hresp. split; [|split; [|split]].
  - apply release_closed_is_noop.
  - intros request d Hd.
    pose proof (serve_obs gate routes Hgate Hresp request d Hd) as H.
    unfold obs in H. by injection H as -> -> ->.
  - intros request d Hd.
    pose proof (serve_obs_exhausted gate routes request d Hd) as H.
    unfold obs in H. by injection H as -> -> ->.
  - intros requests d Hc. by apply serve_all_balanced.
Qed.

Lemma C6_connection_released_exactly_once_witness :
  acquires (log (API_.serve application request_abc database0).2) = 1%nat ∧
  releases (log (API_.serve application request_abc database0).2) = 1%nat ∧
  db (API_.serve application request_abc database0).2 = database0.
Proof.
  apply (C6_connection_released_exactly_once
           AuthMiddleware.process_request (_routes application)
           auth_tame application_responders_tame).
  unfold database0, max_connections; simpl; lia.
Defined.

(** The ways through, one request each: the gate raises; the responder
    returns; the responder raises; the responder has closed the
    connection itself. *)
Example released_after_rejection :
  log (API_.serve application (bare GET "/") database0).2 = [Acquire; Release].
Proof. reflexivity. Qed.

Example released_after_success :
  (API_.serve (wired open_gate (_routes application)) (bare GET "/") database0).2
  = {| response := formatted {| resp_status := "200 OK"; body := PStr "Hello, World!";
                                content_type := None; resp_headers := [] |};
       db := database0;
       log := [Acquire; Invoke "/" GET; Release] |}.
Proof. reflexivity. Qed.

Example released_after_responder_fault :
  log (API_.serve (wired open_gate (_routes application))
                  (bare GET "/competitor") database0).2
  = [Acquire; Invoke "/competitor" GET; Release].
Proof. reflexivity. Qed.

Example released_once_when_responder_closed :
  log (API_.serve (wired open_gate (<["/bye" := self_closing]> ∅))
                  (bare GET "/bye") database0).2
  = [Acquire; Invoke "/bye" GET; Release].
Proof. reflexivity. Qed.

(** ** [json.loads] undoes [json.dumps] *)

Lemma append_cons c (s t : string) : String c s ++ t = String c (s ++ t).
Proof. reflexivity. Qed.

Lemma append_nil_l (t : string) : "" ++ t = t.
Proof. reflexivity. Qed.

Lemma append_nil_r (s : string) : s ++ "" = s.
Proof. induction s as [|c s IH]; [done|]. by rewrite append_cons, IH. Qed.

Lemma append_assoc (s t u : string) : (s ++ t) ++ u = s ++ (t ++ u).
Proof. induction s as [|c s IH]; [done|]. by rewrite !append_cons, IH. Qed.

Lemma length_append (s t : string) :
  String.length (s ++ t) = (String.length s + String.length t)%nat.
Proof. induction s as [|c s IH]; [done|]. rewrite append_cons. simpl. by rewrite IH. Qed.

(** *** Strings *)

(** One character of the source string, escaped and read back. *)
Lemma scanstring_escape_char c tail :
  json.scanstring (json.escape_char c ++ tail)
  = match json.scanstring tail with
    | Some (str, rest) => Some (String c str, rest)
    | None => None
    end.
Proof.
  destruct c as [[] [] [] [] [] [] [] []]; reflexivity.
Qed.

Lemma scanstring_escape s rest :
  json.scanstring (json.escape s ++ String json.dquote rest) = Some (s, rest).
Proof.
  induction s as [|c s IH]; [reflexivity|].
  cbn [json.escape]. rewrite append_assoc, scanstring_escape_char, IH. reflexivity.
Qed.

(** A string literal, entered at its opening quote. *)
Lemma scan_string_literal s rest :
  json.py_encode_basestring_ascii s ++ rest
  = String json.dquote (json.escape s ++ String json.dquote rest).
Proof.
  unfold json.py_encode_basestring_ascii.
  by rewrite append_cons, append_assoc, append_cons.
Qed.

(** *** Integers *)

Lemma nzhead_not_D0 d d' : Decimal.nzhead d ≠ Decimal.D0 d'.
Proof. induction d; simpl; congruence. Qed.

(** The decimal digits of a positive number: at least one, and the first
    is not [0]. *)
Lemma to_uint_head p :
  match Pos.to_uint p with
  | Decimal.Nil | Decimal.D0 _ => False
  | _ => True
  end.
Proof.
  pose proof (DecimalPos.Unsigned.to_of (Pos.to_uint p)) as H.
  rewrite DecimalPos.Unsigned.of_to in H. simpl in H.
  pose proof (DecimalPos.Unsigned.to_uint_nonzero p) as Hz.
  pose proof (nzhead_not_D0 (Pos.to_uint p)) as Hn.
  unfold Decimal.unorm in H.
  destruct (Decimal.nzhead (Pos.to_uint p)) eqn:E;
    rewrite H in *; try done.
  by eapply Hn.
Qed.

Lemma span_digits_uint d rest :
  no_digit rest →
  json.span_digits (NilEmpty.string_of_uint d ++ rest)
  = (NilEmpty.string_of_uint d, rest).
Proof.
  intros Hrest.
  induction d; cbn [NilEmpty.string_of_uint];
    rewrite ?append_cons; cbn [json.span_digits];
    try (change (json.is_digit _) with true; cbv iota; by rewrite IHd).
  rewrite append_nil_l. destruct rest as [|c r]; [done|].
  simpl in Hrest. cbn [json.span_digits]. by rewrite Hrest.
Qed.

Lemma match_integer_repr n rest :
  no_digit rest →
  json.match_integer (json.int_repr n ++ rest) = Some (json.int_repr n, rest).
Proof.
  intros Hrest. unfold json.int_repr.
  destruct n as [|p|p]; [reflexivity|..]; cbn [Z.to_int NilZero.string_of_int];
    pose proof (to_uint_head p) as Hp;
    destruct (Pos.to_uint p) as [|d|d|d|d|d|d|d|d|d|d]; try done;
    cbn [NilZero.string_of_uint NilEmpty.string_of_uint]; rewrite ?append_cons;
    unfold json.match_integer;
    repeat match goal with
      | |- context [Ascii.eqb ?a ?b] =>
          let v := eval vm_compute in (Ascii.eqb a b) in
          change (Ascii.eqb a b) with v
      | |- context [json.is_digit ?a] =>
          let v := eval vm_compute in (json.is_digit a) in
          change (json.is_digit a) with v
      end;
    cbv iota; rewrite span_digits_uint by done; reflexivity.
Qed.

Lemma py_int_repr n : json.py_int (json.int_repr n) = Some n.
Proof.
  unfold json.py_int, json.int_repr.
  rewrite NilZero.isi.
  - simpl. by rewrite DecimalZ.of_to.
  - destruct n as [|p|p]; simpl; try done.
    intros [= H]. by apply (DecimalPos.Unsigned.to_uint_nonnil p).
  - destruct n as [|p|p]; simpl; try done.
    intros [= H]. by apply (DecimalPos.Unsigned.to_uint_nonnil p).
Qed.

Lemma ends_value_no_digit rest : ends_value rest = true → no_digit rest.
Proof.
  destruct rest as [|c r]; [done|]. simpl.
  destruct c as [[] [] [] [] [] [] [] []]; done.
Qed.

Lemma ends_value_no_float rest : ends_value rest = true → json.float_follows rest = false.
Proof.
  destruct rest as [|c r]; [done|]. simpl.
  destruct c as [[] [] [] [] [] [] [] []]; done.
Qed.

Lemma scan_number_repr n rest :
  ends_value rest = true →
  json.scan_number (json.int_repr n ++ rest) = Some (PInt n, rest).
Proof.
  intros H. unfold json.scan_number.
  rewrite match_integer_repr by by apply ends_value_no_digit.
  by rewrite ends_value_no_float, py_int_repr.
Qed.

Lemma int_repr_head n : ∃ c s, json.int_repr n = String c s ∧ int_head c = true.
Proof.
  unfold json.int_repr.
  destruct n as [|p|p]; [by eexists _, _|..]; cbn [Z.to_int NilZero.string_of_int].
  - pose proof (to_uint_head p) as Hp.
    destruct (Pos.to_uint p); try done; by eexists _, _.
  - by eexists _, _.
Qed.

Lemma scan_once_number fuel c s :
  int_head c = true →
  json.scan_once (S fuel) (String c s) = json.scan_number (String c s).
Proof.
  destruct c as [[] [] [] [] [] [] [] []]; try discriminate; reflexivity.
Qed.

(** *** Values *)

(** Induction on a value, with the hypothesis for every element of a
    list and every value of a dict. *)
Lemma pyval_rect_nested (P : pyval → Prop) :
  P PNone →
  (∀ b, P (PBool b)) →
  (∀ n, P (PInt n)) →
  (∀ s, P (PStr s)) →
  (∀ xs, Forall P xs → P (PList xs)) →
  (∀ xs, Forall P xs → P (PTuple xs)) →
  (∀ items, Forall (λ kv, P kv.2) items → P (PDict items)) →
  ∀ v, P v.
Proof.
  intros HN HB HI HS HL HT HD.
  fix IH 1. intros [ | b | n | s | xs | xs | items ].
  - apply HN.
  - apply HB.
  - apply HI.
  - apply HS.
  - apply HL. induction xs as [|x xs IHxs]; constructor; [apply IH | apply IHxs].
  - apply HT. induction xs as [|x xs IHxs]; constructor; [apply IH | apply IHxs].
  - apply HD. induction items as [|[k x] items IHitems]; constructor;
      [apply IH | apply IHitems].
Qed.

Lemma wf_PList xs : wf_pyval (PList xs) ↔ Forall wf_pyval xs.
Proof.
  cbn [wf_pyval]. induction xs as [|x xs IH]; [by split; [constructor|]|].
  rewrite Forall_cons, <- IH. reflexivity.
Qed.


Lemma wf_PDict items :
  wf_pyval (PDict items) ↔
  NoDup (map fst items) ∧ Forall (λ kv, wf_pyval kv.2) items.
Proof.
  cbn [wf_pyval]. apply and_iff_compat_l.
  induction items as [|kv items IH]; [by split; [constructor|]|].
  rewrite Forall_cons, <- IH. reflexivity.
Qed.

Lemma dumps_PList xs :
  json.dumps (PList xs) = "[" ++ json.join ", " (map json.dumps xs) ++ "]".
Proof. reflexivity. Qed.

Lemma dumps_PTuple xs : json.dumps (PTuple xs) = json.dumps (PList xs).
Proof. reflexivity. Qed.

Lemma tuple_free_PList xs :
  tuple_free (PList xs) = true ↔ Forall (λ x, tuple_free x = true) xs.
Proof.
  cbn [tuple_free]. induction xs as [|x xs IH]; [by split; [constructor|]|].
  cbn [forallb]. rewrite andb_true_iff, Forall_cons, IH. reflexivity.
Qed.

Lemma tuple_free_PDict items :
  tuple_free (PDict items) = true ↔
  Forall (λ kv : string * pyval, tuple_free kv.2 = true) items.
Proof.
  cbn [tuple_free]. induction items as [|[k x] items IH]; [by split; [constructor|]|].
  cbn [forallb]. rewrite andb_true_iff, Forall_cons, IH. reflexivity.
Qed.

Lemma dumps_PDict items :
  json.dumps (PDict items) = "{" ++ json.join ", " (map item_text items) ++ "}".
Proof. reflexivity. Qed.

Lemma dumps_head v :
  ∃ c s, json.dumps v = String c s ∧ value_head c = true.
Proof.
  destruct v as [ | [] | n | s | xs | xs | items ]; try (by eexists _, _).
  destruct (int_repr_head n) as (c & s & Hs & Hc).
  exists c, s. split; [done|].
  destruct c as [[] [] [] [] [] [] [] []]; done.
Qed.

Lemma skip_ws_head c s : value_head c = true → json.skip_ws (String c s) = String c s.
Proof.
  unfold value_head. intros H. cbn [json.skip_ws].
  by destruct (json.is_ws c).
Qed.

Lemma skip_ws_dumps v rest : json.skip_ws (json.dumps v ++ rest) = json.dumps v ++ rest.
Proof.
  destruct (dumps_head v) as (c & s & -> & Hc).
  rewrite append_cons. by apply skip_ws_head.
Qed.

Lemma size_pos v : (1 ≤ size v)%nat.
Proof. destruct v; simpl; lia. Qed.

Lemma join_cons_cons sep p q parts :
  json.join sep (p :: q :: parts) = p ++ sep ++ json.join sep (q :: parts).
Proof. reflexivity. Qed.

(** Deciding the tests on the characters that are written out. *)
Ltac decide_chars :=
  repeat
    (cbn [json.skip_ws];
     repeat match goal with
       | |- context [Ascii.eqb ?a ?b] =>
           let v := eval vm_compute in (Ascii.eqb a b) in
           match v with
           | true => change (Ascii.eqb a b) with true
           | false => change (Ascii.eqb a b) with false
           end
       | |- context [json.is_ws ?a] =>
           let v := eval vm_compute in (json.is_ws a) in
           match v with
           | true => change (json.is_ws a) with true
           | false => change (json.is_ws a) with false
           end
       end;
     progress cbv iota).

Section loops.

Variable scan : string → option (pyval * string).

(** The array loop on the elements [json.dumps] wrote, when the scanner
    reads each of them. *)
Lemma array_loop_dumps xs : ∀ x n rest,
  Forall (λ y, ∀ r, ends_value r = true → scan (json.dumps y ++ r) = Some (y, r))
         (x :: xs) →
  (length xs < n)%nat →
  json.array_loop scan n
    (json.join ", " (map json.dumps (x :: xs)) ++ String "]" rest)
  = Some (x :: xs, rest).
Proof.
  induction xs as [|x' xs IH]; intros x n rest Hscan Hn;
    (destruct n as [|n]; [simpl in Hn; lia|]);
    apply Forall_cons in Hscan as [Hx Hxs].
  - cbn [map json.join json.array_loop].
    rewrite Hx by done. reflexivity.
  - cbn [map]. rewrite join_cons_cons, !append_assoc.
    cbn [json.array_loop]. rewrite Hx by done.
    change (", " ++ ?t) with (String "," (String " " t)).
    decide_chars.
    change (json.dumps x' :: map json.dumps xs) with (map json.dumps (x' :: xs)).
    assert (json.skip_ws (json.join ", " (map json.dumps (x' :: xs)) ++ String "]" rest)
            = json.join ", " (map json.dumps (x' :: xs)) ++ String "]" rest) as ->.
    { destruct xs; cbn [map json.join]; rewrite ?append_assoc; apply skip_ws_dumps. }
    rewrite IH; [reflexivity | done | simpl in Hn; lia].
Qed.

Lemma JSONArray_dumps xs n rest :
  Forall (λ y, ∀ r, ends_value r = true → scan (json.dumps y ++ r) = Some (y, r)) xs →
  (length xs ≤ n)%nat →
  json.JSONArray scan n (json.join ", " (map json.dumps xs) ++ String "]" rest)
  = Some (xs, rest).
Proof.
  intros Hscan Hn. unfold json.JSONArray.
  destruct xs as [|x xs]; [reflexivity|].
  assert (json.skip_ws (json.join ", " (map json.dumps (x :: xs)) ++ String "]" rest)
          = json.join ", " (map json.dumps (x :: xs)) ++ String "]" rest) as Hskip.
  { destruct xs; cbn [map json.join]; rewrite ?append_assoc; apply skip_ws_dumps. }
  rewrite Hskip.
  rewrite array_loop_dumps by (done || (simpl in Hn; lia)).
  assert (∃ c s, json.join ", " (map json.dumps (x :: xs)) ++ String "]" rest
                 = String c s ∧ value_head c = true) as (c & s & Hs & Hc).
  { destruct (dumps_head x) as (c & s & Hx & Hc).
    destruct xs; cbn [map json.join]; rewrite Hx, append_cons; by eexists _, _. }
  rewrite Hs. unfold value_head in Hc.
  destruct (Ascii.eqb c "]"); [by rewrite andb_false_r in Hc | done].
Qed.

(** The object loop on the items [json.dumps] wrote. *)
Lemma object_loop_dumps items : ∀ kv n rest,
  Forall (λ kv, ∀ r, ends_value r = true →
                     scan (json.dumps kv.2 ++ r) = Some (kv.2, r)) (kv :: items) →
  (length items < n)%nat →
  ∃ text,
    json.join ", " (map item_text (kv :: items)) ++ String "}" rest
    = String json.dquote text ∧
    json.object_loop scan n text = Some (kv :: items, rest).
Proof.
  induction items as [|kv' items IH]; intros [k x] n rest Hscan Hn;
    (destruct n as [|n]; [simpl in Hn; lia|]);
    apply Forall_cons in Hscan as [Hx Hxs]; cbn [snd] in Hx.
  - cbn [map json.join item_text].
    rewrite !append_assoc, scan_string_literal.
    eexists; split; [reflexivity|].
    cbn [json.object_loop]. rewrite scanstring_escape.
    change (": " ++ ?t) with (String ":" (String " " t)).
    decide_chars.
    rewrite skip_ws_dumps, Hx by done. reflexivity.
  - destruct (IH kv' n rest Hxs ltac:(simpl in Hn; lia)) as (text & Htext & Hloop).
    cbn [map]. rewrite join_cons_cons. cbn [item_text].
    change (item_text kv' :: map item_text items) with (map item_text (kv' :: items)).
    rewrite !append_assoc, Htext, scan_string_literal.
    eexists; split; [reflexivity|].
    cbn [json.object_loop]. rewrite scanstring_escape.
    change (": " ++ ?t) with (String ":" (String " " t)).
    decide_chars.
    rewrite skip_ws_dumps, Hx by done.
    change (", " ++ ?t) with (String "," (String " " t)).
    decide_chars.
    by rewrite Hloop.
Qed.

End loops.

(** *** Dicts *)

Lemma dict_set_fresh k v d :
  k ∉ map fst d → json.dict_set k v d = (d ++ [(k, v)])%list.
Proof.
  induction d as [|[k' v'] d IH]; intros Hk; [reflexivity|].
  cbn [map fst] in Hk. apply not_elem_of_cons in Hk as [Hne Hk].
  cbn [json.dict_set]. destruct (String.eqb_spec k k') as [->|_]; [done|].
  by rewrite IH.
Qed.

Lemma dict_from acc pairs :
  NoDup (map fst (acc ++ pairs)%list) →
  fold_left (λ d kv, json.dict_set kv.1 kv.2 d) pairs acc = (acc ++ pairs)%list.
Proof.
  revert acc. induction pairs as [|[k v] pairs IH]; intros acc Hnd.
  - by rewrite app_nil_r.
  - cbn [fold_left fst snd].
    rewrite dict_set_fresh.
    + rewrite IH; rewrite <- app_assoc; done.
    + rewrite map_app in Hnd. apply NoDup_app in Hnd as (_ & Hdisj & _).
      intros Hin. apply (Hdisj k Hin). cbn [map fst]. apply elem_of_cons. by left.
Qed.

(** A list of pairs without a repeated key is the dict it builds. *)
Lemma dict_NoDup pairs : NoDup (map fst pairs) → json.dict pairs = pairs.
Proof. intros H. unfold json.dict. by rewrite dict_from. Qed.

(** *** The scanner on the text of a value *)

Lemma size_elements xs :
  (length xs ≤ fold_right (λ x n, size x + n) 0 xs)%nat ∧
  Forall (λ x, size x ≤ fold_right (λ x n, size x + n) 0 xs)%nat xs.
Proof.
  induction xs as [|x xs [IHl IHf]]; [by split; [|constructor]|].
  cbn [fold_right length]. pose proof (size_pos x). split; [lia|].
  constructor; [lia|]. eapply Forall_impl; [apply IHf|]. intros; simpl in *; lia.
Qed.

Lemma size_items (items : list (string * pyval)) :
  let total := fold_right (λ (kv : string * pyval) n, let (k, x) := kv in size x + n)%nat
                          O items in
  (length items ≤ total)%nat ∧ Forall (λ kv, size kv.2 ≤ total)%nat items.
Proof.
  induction items as [|[k x] items [IHl IHf]]; [by split; [|constructor]|].
  cbn [fold_right length]. pose proof (size_pos x). split; [lia|].
  constructor; [cbn [snd]; lia|].
  eapply Forall_impl; [apply IHf|]. intros; simpl in *; lia.
Qed.

(** With fuel for the value, the scanner reads the text of a
    well-formed value and stops where the text stops. *)
Lemma scan_once_dumps v :
  wf_pyval v → tuple_free v = true →
  ∀ fuel rest,
    (size v ≤ fuel)%nat → ends_value rest = true →
    json.scan_once fuel (json.dumps v ++ rest) = Some (v, rest).
Proof.
  induction v as [ | b | n | s | xs IH | xs IH | items IH ] using pyval_rect_nested;
    intros Hwf Htf fuel rest Hfuel Hrest; [| | | | | discriminate Htf | ];
    (destruct fuel as [|fuel]; [pose proof (size_pos PNone); simpl in Hfuel; lia|]).
  - reflexivity.
  - destruct b; reflexivity.
  - cbn [json.dumps].
    destruct (int_repr_head n) as (c & t & Hn & Hc).
    rewrite <- (scan_number_repr n rest Hrest).
    rewrite Hn, append_cons. by apply scan_once_number.
  - cbn [json.dumps]. rewrite scan_string_literal.
    cbn [json.scan_once]. decide_chars. by rewrite scanstring_escape.
  - rewrite dumps_PList, !append_assoc.
    change ("[" ++ ?t) with (String "[" t). change ("]" ++ ?t) with (String "]" t).
    cbn [json.scan_once]. decide_chars.
    apply wf_PList in Hwf. apply tuple_free_PList in Htf. cbn [size] in Hfuel.
    destruct (size_elements xs) as [Hlen Hsizes].
    rewrite JSONArray_dumps; [reflexivity| |lia].
    rewrite Forall_forall in IH, Hwf, Htf, Hsizes. apply Forall_forall.
    intros x Hx r Hr. apply IH; [done | by apply Hwf | by apply Htf | | done].
    specialize (Hsizes x Hx). lia.
  - rewrite dumps_PDict, !append_assoc.
    change ("{" ++ ?t) with (String "{" t). change ("}" ++ ?t) with (String "}" t).
    cbn [json.scan_once]. decide_chars.
    apply wf_PDict in Hwf as [Hnd Hwf]. apply tuple_free_PDict in Htf.
    cbn [size] in Hfuel.
    destruct (size_items items) as [Hlen Hsizes].
    assert (Forall (λ kv, ∀ r, ends_value r = true →
                          json.scan_once fuel (json.dumps kv.2 ++ r) = Some (kv.2, r))
                   items) as Hscan.
    { rewrite Forall_forall in IH, Hwf, Htf, Hsizes. apply Forall_forall.
      intros x Hx r Hr. apply IH; [done | by apply Hwf | by apply Htf | | done].
      specialize (Hsizes x Hx). lia. }
    assert (length items ≤ fuel)%nat as Hitems by lia.
    clear Hlen Hsizes Hfuel.
    destruct items as [|kv items]; [reflexivity|].
    destruct (object_loop_dumps (json.scan_once fuel) items kv fuel rest Hscan)
      as (text & Htext & Hloop); [simpl in Hitems; lia|].
    rewrite Htext. unfold json.JSONObject. decide_chars.
    rewrite Hloop, dict_NoDup by done. reflexivity.
Qed.

Lemma join_length sep parts :
  (fold_right (λ p n, String.length p + n) 0 parts ≤ String.length (json.join sep parts))%nat.
Proof.
  induction parts as [|p [|q parts] IH]; [done|simpl; lia|].
  rewrite join_cons_cons, !length_append. cbn [fold_right] in *. lia.
Qed.

(** The text of a value is at least as long as the fuel the value
    needs. *)
Lemma size_le_length v : (size v ≤ String.length (json.dumps v))%nat.
Proof.
  induction v as [ | b | n | s | xs IH | xs IH | items IH ] using pyval_rect_nested.
  - simpl. lia.
  - destruct b; simpl; lia.
  - destruct (int_repr_head n) as (c & t & Hn & _). simpl. rewrite Hn. simpl. lia.
  - simpl. lia.
  - rewrite dumps_PList, !length_append. cbn [size].
    pose proof (join_length ", " (map json.dumps xs)) as Hj.
    enough (fold_right (λ x n, size x + n) 0 xs
            ≤ fold_right (λ p n, String.length p + n) 0 (map json.dumps xs))%nat
      by (simpl; lia).
    clear Hj. induction IH as [|x xs Hx _ IHxs]; [done|].
    cbn [map fold_right]. lia.
  - rewrite dumps_PTuple, dumps_PList, !length_append. cbn [size].
    pose proof (join_length ", " (map json.dumps xs)) as Hj.
    enough (fold_right (λ x n, size x + n) 0 xs
            ≤ fold_right (λ p n, String.length p + n) 0 (map json.dumps xs))%nat
      by (simpl; lia).
    clear Hj. induction IH as [|x xs Hx _ IHxs]; [done|].
    cbn [map fold_right]. lia.
  - rewrite dumps_PDict, !length_append. cbn [size].
    pose proof (join_length ", " (map item_text items)) as Hj.
    enough (fold_right (λ (kv : string * pyval) n, let (k, x) := kv in size x + n) 0 items
            ≤ fold_right (λ p n, String.length p + n) 0 (map item_text items))%nat
      by (simpl; lia).
    clear Hj. induction IH as [|[k x] items Hx _ IHitems]; [done|].
    cbn [map fold_right item_text snd] in *. rewrite !length_append. lia.
Qed.

(** [json.loads (json.dumps v)] is [v], for a value without tuples. *)
Lemma loads_dumps v :
  wf_pyval v → tuple_free v = true → json.loads (json.dumps v) = Some v.
Proof.
  intros Hwf Htf. unfold json.loads.
  rewrite <- (append_nil_r (json.dumps v)) at 2.
  rewrite skip_ws_dumps, scan_once_dumps; [reflexivity | done | done | | done].
  pose proof (size_le_length v). lia.
Qed.

(** *** Tuples *)




Lemma as_json_tuple_free v : tuple_free v = true → as_json v = v.
Proof.
  induction v as [ | b | n | s | xs IH | xs IH | items IH ] using pyval_rect_nested;
    try done.
  - rewrite tuple_free_PList. intros Htf. cbn [as_json]. f_equal.
    induction IH as [|x xs Hx _ IHxs]; [done|].
    apply Forall_cons in Htf as [Hx' Hxs]. cbn [map]. by rewrite Hx, IHxs.
  - rewrite tuple_free_PDict. intros Htf. cbn [as_json]. f_equal.
    induction IH as [|[k x] items Hx _ IHitems]; [done|].
    apply Forall_cons in Htf as [Hx' Hitems]. cbn [map snd] in *.
    by rewrite Hx, IHitems.
Qed.





(** The payloads the responders of the module set, written and read
    back. *)
Example payloads_round_trip :
  Forall (λ v, json.loads (json.dumps v) = Some v)
    [ PStr "Hello, World!";
      Success [("Message", PStr "Here is the login page")];
      Success [("Message", PStr "You have successfully logged in")];
      Success [("Message", PStr "You have successfully logged out")];
      Success [("Problems", PList [PInt 1; PInt 2; PInt 3])];
      Success [("Problem", PDict [("Name", PStr "ProblemName")])];
      Success [("Message", PStr "You have successfully solved the problem!")];
      Success [("Competitors", PList [PInt 1; PInt 2; PInt 3; PInt 4; PInt 5])];
      Success [("Competitor", PDict [("Name", PStr "Name"); ("Points", PInt 100)])];
      Success [("Competitor", PDict [("Name", PStr "Name2"); ("Points", PInt 99)])] ].
Proof. repeat constructor. Qed.

(** * Further properties of the module *)

(** ** What the gate and the application look at *)

(** X1.  The gate looks at one thing, whether the [Authorization]
    header is there: two requests that agree on that are treated alike,
    whatever their [Account-Id] headers (and everything else) are. *)
Theorem gate_looks_at_token_presence_only r1 r2 c :
  is_not_None (get_header r1 "Authorization")
  = is_not_None (get_header r2 "Authorization") →
  AuthMiddleware.process_request r1 c = AuthMiddleware.process_request r2 c.
Proof.
  intros H.
  destruct (get_header r1 "Authorization") as [t1|] eqn:H1;
    destruct (get_header r2 "Authorization") as [t2|] eqn:H2;
    try discriminate.
  - by rewrite (auth_rejects_present r1 t1), (auth_rejects_present r2 t2).
  - by rewrite (auth_rejects_absent r1), (auth_rejects_absent r2).
Qed.

Lemma gate_looks_at_token_presence_only_witness :
  AuthMiddleware.process_request request_abc (start database0)
  = AuthMiddleware.process_request request_xyz (start database0).
Proof.
  apply (gate_looks_at_token_presence_only request_abc request_xyz). reflexivity.
Defined.

(** X2.  The application answers two requests alike as soon as they
    agree on the presence of the [Authorization] header: method, path,
    query string and [Account-Id] change nothing, neither in the
    response nor in what happens to the handle. *)
Theorem application_looks_at_token_presence_only r1 r2 d :
  is_not_None (get_header r1 "Authorization")
  = is_not_None (get_header r2 "Authorization") →
  API_.serve application r1 d = API_.serve application r2 d.
Proof.
  intros H.
  destruct (decide (in_use d < max_connections)%nat) as [Hd|Hd].
  - destruct (get_header r1 "Authorization") as [t1|] eqn:H1;
      destruct (get_header r2 "Authorization") as [t2|] eqn:H2;
      try discriminate.
    + rewrite (serve_application_rejected r1 d AuthMiddleware.AuthTokenRequired),
        (serve_application_rejected r2 d AuthMiddleware.AuthTokenRequired);
        [done | done | | done |]; intros c; by eapply auth_rejects_present.
    + rewrite (serve_application_rejected r1 d AuthMiddleware.AuthenticationFailed),
        (serve_application_rejected r2 d AuthMiddleware.AuthenticationFailed);
        [done | done | | done |]; intros c; by eapply auth_rejects_absent.
  - by rewrite !serve_application_exhausted.
Qed.

Lemma application_looks_at_token_presence_only_witness :
  API_.serve application request_abc database0
  = API_.serve application request_xyz database0.
Proof.
  apply (application_looks_at_token_presence_only request_abc request_xyz). reflexivity.
Defined.

(** ** The pool *)

(** X3.  When every connection of the pool is out, [database.connect()]
    raises in [PeeweeConnectionMiddleware.process_request]; the gate is
    not reached, [CatchAllHandler] masks the exception, and the client
    gets the 500 with the fixed title and description.  Nothing is
    leased or returned and the handle stays as it was. *)
Theorem exhausted_pool_is_masked_as_500 request d :
  ¬ (in_use d < max_connections)%nat →
  outcome (API_.serve application request d)
  = Some {| resp_status := "500 Internal Server Error";
            body := PStr (to_json CatchAllHandler.InternalServerError);
            content_type := None;
            resp_headers := [] |} ∧
  title CatchAllHandler.InternalServerError = Some "Internal server error." ∧
  db (API_.serve application request d).2 = d ∧
  log (API_.serve application request d).2 = [].
Proof.
  intros Hd. rewrite serve_application_exhausted by done. by repeat split.
Qed.

Lemma exhausted_pool_is_masked_as_500_witness :
  db (API_.serve application request_abc database_full).2 = database_full.
Proof.
  apply (exhausted_pool_is_masked_as_500 request_abc database_full).
  unfold database_full, max_connections; simpl; lia.
Defined.

(** The log of the application over a sequence of requests. *)
Lemma serve_all_application requests d :
  closed d = true → (in_use d < max_connections)%nat →
  serve_all application requests d
  = (d, concat (map (λ _, [Acquire; Release]) requests)).
Proof.
  intros Hc Hd. induction requests as [|request rest IH]; [done|].
  cbn [serve_all map concat].
  assert (∃ e, API_.serve application request d
               = (inr (), {| response := respond_error e Response0;
                             db := {| closed := true; in_use := in_use d |};
                             log := [Acquire; Release] |})) as [e He].
  { destruct (get_header request "Authorization") as [t|] eqn:Ht.
    - exists AuthMiddleware.AuthTokenRequired.
      apply serve_application_rejected; [done|]. intros c. by eapply auth_rejects_present.
    - exists AuthMiddleware.AuthenticationFailed.
      apply serve_application_rejected; [done|]. intros c. by eapply auth_rejects_absent. }
  rewrite He. cbn [snd db log].
  replace {| closed := true; in_use := in_use d |} with d
    by (destruct d; simpl in *; by subst).
  by rewrite IH.
Qed.

(** X4.  Served one after the other on an idle handle with a free
    connection, the requests never find the pool exhausted: each one
    leases a connection and returns it before the next begins, so as
    many connections are leased, and as many returned, as there are
    requests, and the handle ends as it began. *)
Theorem sequential_requests_each_get_a_connection requests d :
  closed d = true → (in_use d < max_connections)%nat →
  acquires (serve_all application requests d).2 = length requests ∧
  releases (serve_all application requests d).2 = length requests ∧
  (serve_all application requests d).1 = d.
Proof.
  intros Hc Hd. rewrite serve_all_application by done. cbn [fst snd].
  split; [|split; [|done]]; clear.
  - induction requests as [|r rest IH]; [done|]. cbn [map concat length].
    rewrite acquires_app, IH. reflexivity.
  - induction requests as [|r rest IH]; [done|]. cbn [map concat length].
    rewrite releases_app, IH. reflexivity.
Qed.

Lemma sequential_requests_each_get_a_connection_witness :
  acquires (serve_all application [request_abc; bare GET "/"; request_xyz] database0).2
  = 3%nat.
Proof.
  apply (sequential_requests_each_get_a_connection
           [request_abc; bare GET "/"; request_xyz] database0); [reflexivity|].
  unfold database0, max_connections; simpl; lia.
Defined.

(** ** [User.get_points] on the solution table *)

Lemma py_sum_app (l1 l2 : list Z) :
  models.py_sum (l1 ++ l2) = models.py_sum l1 + models.py_sum l2.
Proof.
  induction l1 as [|x l1 IH]; [reflexivity|].
  rewrite <- app_comm_cons, !py_sum_cons, IH. lia.
Qed.

Lemma py_sum_Permutation (l1 l2 : list Z) :
  l1 ≡ₚ l2 → models.py_sum l1 = models.py_sum l2.
Proof.
  induction 1 as [|x l1 l2 _ IH|x y l|l1 l2 l3 _ IH1 _ IH2].
  - done.
  - by rewrite !py_sum_cons, IH.
  - rewrite !py_sum_cons. lia.
  - by rewrite IH1.
Qed.

(** X5.  [get_points] reads the [user] and the [problem] of a row and
    nothing else: two tables whose rows agree on those two columns give
    every user the same points, whatever the [solved] flags and the
    [last_attempt] hashes are. *)
Theorem get_points_reads_user_and_problem_only table1 table2 self :
  Forall2 (λ x y, models.user x = models.user y ∧
                  models.problem x = models.problem y) table1 table2 →
  models.get_points table1 self = models.get_points table2 self.
Proof.
  unfold models.get_points, models.solutions.
  induction 1 as [|x y t1 t2 [Hu Hp] _ IH]; [done|].
  rewrite !filter_cons, Hu.
  destruct (decide (models.user y = models.user_id self)); [|done].
  cbn [map]. by rewrite !py_sum_cons, Hp, IH.
Qed.

Lemma get_points_reads_user_and_problem_only_witness :
  models.get_points submissions1 account1 = models.get_points submissions2 account1.
Proof.
  apply (get_points_reads_user_and_problem_only submissions1 submissions2 account1).
  repeat constructor.
Defined.

(** X6.  [get_points] is the sum, row by row, of what each row brings:
    nothing for an empty table, the points of its problem for a row of
    the user, nothing for a row of somebody else; so the points over two
    tables put together are the points over each, added. *)
Theorem get_points_row_by_row self :
  models.get_points [] self = 0 ∧
  (∀ x table,
     models.get_points (x :: table) self
     = (if decide (models.user x = models.user_id self)
        then models.points (models.problem x) else 0)
       + models.get_points table self) ∧
  (∀ table1 table2,
     models.get_points (table1 ++ table2) self
     = models.get_points table1 self + models.get_points table2 self).
Proof.
  unfold models.get_points, models.solutions. split; [done|]. split.
  - intros x table. rewrite filter_cons.
    destruct (decide _); [cbn [map]; by rewrite py_sum_cons | done].
  - intros table1 table2. by rewrite filter_app, map_app, py_sum_app.
Qed.

(** X7.  The order of the rows does not matter: two tables with the
    same rows in another order give every user the same points. *)
Theorem get_points_any_row_order table1 table2 self :
  table1 ≡ₚ table2 →
  models.get_points table1 self = models.get_points table2 self.
Proof.
  intros H. unfold models.get_points, models.solutions.
  apply py_sum_Permutation, Permutation_map. by rewrite H.
Qed.

Lemma get_points_any_row_order_witness :
  models.get_points submissions1 account1
  = models.get_points (rev submissions1) account1.
Proof.
  apply (get_points_any_row_order submissions1 (rev submissions1) account1).
  apply Permutation_rev.
Defined.

(** ** The resources and their responders *)

(** The entries of the route table, one by one. *)
Lemma route_cases p r :
  _routes application !! p = Some r →
  (p = "/" ∧ r = RootResource.resource) ∨
  (p = "/login" ∧ r = LoginResource.resource) ∨
  (p = "/problems" ∧ r = ProblemCollection.resource) ∨
  (p = "/problem" ∧ r = ProblemResource.resource) ∨
  (p = "/competitors" ∧ r = UserCollection.resource) ∨
  (p = "/competitor" ∧ r = UserResource.resource).
Proof.
  rewrite application_routes.
  rewrite !lookup_insert_Some, lookup_empty.
  intros [[<- <-]|[_ [[<- <-]|[_ [[<- <-]|[_ [[<- <-]|[_ [[<- <-]|[_ [[<- <-]|[_ ?]]]]]]]]]]]];
    try done; auto 10.
Qed.

Lemma route_methods p r :
  _routes application !! p = Some r →
  is_Some (res_on_get r) ∧
  (is_Some (res_on_post r) ↔ p = "/login" ∨ p = "/problem").
Proof.
  intros H. apply route_cases in H.
  destruct H as [[-> ->]|[[-> ->]|[[-> ->]|[[-> ->]|[[-> ->]|[-> ->]]]]]];
    (split; [by eexists|]); cbn [res_on_post RootResource.resource
      LoginResource.resource ProblemCollection.resource ProblemResource.resource
      UserCollection.resource UserResource.resource];
    rewrite ?is_Some_alt; split; try done; auto; intros [?|?]; discriminate.
Qed.

(** X8.  Every registered resource answers [GET]; [POST] is answered by
    the resources at [/login] and [/problem] and by no other. *)
Theorem registered_methods p r :
  _routes application !! p = Some r →
  is_Some (res_on_get r) ∧
  (is_Some (res_on_post r) ↔ p = "/login" ∨ p = "/problem").
Proof. apply route_methods. Qed.

Lemma registered_methods_witness :
  is_Some (res_on_post LoginResource.resource) ↔ "/login" = "/login" ∨ "/login" = "/problem".
Proof.
  apply (registered_methods "/login" LoginResource.resource). reflexivity.
Defined.

Lemma responder_cases p r f request c :
  _routes application !! p = Some r →
  res_on_get r = Some f ∨ res_on_post r = Some f →
  match f request c with
  | (inr _, c') =>
      resp_status (response c') = "200 OK" ∧
      content_type (response c') = content_type (response c) ∧
      resp_headers (response c') = resp_headers (response c) ∧
      db c' = db c ∧ log c' = log c ∧
      ((p = "/" ∧ body (response c') = PStr "Hello, World!") ∨
       ∃ rest, body (response c') = PDict (("Success", PBool true) :: rest))
  | (inl ex, c') =>
      ex = KeyError "id" ∧ p = "/competitor" ∧
      params request !! "id" = None ∧ c' = c
  end.
Proof.
  intros Hr Hf. apply route_cases in Hr.
  destruct Hr as [[-> ->]|[[-> ->]|[[-> ->]|[[-> ->]|[[-> ->]|[-> ->]]]]]];
    (destruct Hf as [Hf|Hf]; cbn in Hf; simplify_eq);
    try (cbn; repeat split; (by left) || (right; by eexists)).
  unfold UserResource.on_get.
  destruct (params request !! "id") as [id|] eqn:Hid; [|done].
  destruct (bool_decide (id = "1")); cbn; repeat split; right; by eexists.
Qed.

(** X9.  What a registered responder does when it is entered.  It either
    returns, having set status 200 and, as body, the greeting (at [/])
    or a dict that begins with ['Success': True], and having left the
    content type, the headers, the handle and the log alone; or it
    raises, and then it is the responder of [/competitor] on a request
    without [id] parameter, the exception is [KeyError('id')] and
    nothing has been changed. *)
Theorem responders_return_200_or_raise_KeyError p r f request c :
  _routes application !! p = Some r →
  res_on_get r = Some f ∨ res_on_post r = Some f →
  match f request c with
  | (inr _, c') =>
      resp_status (response c') = "200 OK" ∧
      content_type (response c') = content_type (response c) ∧
      resp_headers (response c') = resp_headers (response c) ∧
      db c' = db c ∧ log c' = log c ∧
      ((p = "/" ∧ body (response c') = PStr "Hello, World!") ∨
       ∃ rest, body (response c') = PDict (("Success", PBool true) :: rest))
  | (inl ex, c') =>
      ex = KeyError "id" ∧ p = "/competitor" ∧
      params request !! "id" = None ∧ c' = c
  end.
Proof. apply responder_cases. Qed.

Lemma responders_return_200_or_raise_KeyError_witness :
  match UserResource.on_get (bare GET "/competitor") (start database0) with
  | (inr _, c') =>
      resp_status (response c') = "200 OK" ∧
      content_type (response c') = content_type (response (start database0)) ∧
      resp_headers (response c') = resp_headers (response (start database0)) ∧
      db c' = db (start database0) ∧ log c' = log (start database0) ∧
      (("/competitor" = "/" ∧ body (response c') = PStr "Hello, World!") ∨
       ∃ rest, body (response c') = PDict (("Success", PBool true) :: rest))
  | (inl ex, c') =>
      ex = KeyError "id" ∧ "/competitor" = "/competitor" ∧
      params (bare GET "/competitor") !! "id" = None ∧ c' = start database0
  end.
Proof.
  apply (responders_return_200_or_raise_KeyError "/competitor" UserResource.resource
           UserResource.on_get (bare GET "/competitor") (start database0));
    [reflexivity | by left].
Defined.

Lemma response_released c : response (released c) = response c.
Proof. unfold released. by destruct (closed (db c)). Qed.

(** X10.  [GET /competitor] behind a gate that lets requests through.
    With an [id] parameter the answer is a 200 whose competitor is
    ["Name"] with 100 points when the parameter is exactly the string
    ["1"], and ["Name2"] with 99 points for every other string; without
    the parameter the [KeyError] of the responder reaches the client as
    the masked 500. *)
Theorem competitor_lookup_behind_the_gate request d :
  method request = GET → path request = "/competitor" →
  (in_use d < max_connections)%nat →
  outcome (API_.serve (wired open_gate (_routes application)) request d)
  = Some (formatted
            match params request !! "id" with
            | Some id =>
                {| resp_status := "200 OK";
                   body := Success
                     [("Competitor",
                       PDict [("Name", PStr (if bool_decide (id = "1")
                                             then "Name" else "Name2"));
                              ("Points", PInt (if bool_decide (id = "1")
                                               then 100 else 99))])];
                   content_type := None; resp_headers := [] |}
            | None => respond_error CatchAllHandler.InternalServerError Response0
            end).
Proof.
  intros Hm Hp Hd.
  assert ((API_._get_responder (wired open_gate (_routes application)) request).1
          = λ req, emit (Invoke "/competitor" GET);; UserResource.on_get req) as Hresp.
  { rewrite (get_responder_registered open_gate request UserResource.resource)
      by (by rewrite Hp).
    rewrite Hp, Hm. reflexivity. }
  destruct (params request !! "id") as [id|] eqn:Hid.
  - destruct (bool_decide (id = "1")) eqn:Hb.
    + erewrite serve_responder_returns; [| done | reflexivity |].
      2:{ rewrite Hresp. erewrite bind_return; [|reflexivity].
          unfold UserResource.on_get. rewrite Hid, Hb. reflexivity. }
      unfold outcome. by rewrite response_released.
    + erewrite serve_responder_returns; [| done | reflexivity |].
      2:{ rewrite Hresp. erewrite bind_return; [|reflexivity].
          unfold UserResource.on_get. rewrite Hid, Hb. reflexivity. }
      unfold outcome. by rewrite response_released.
  - rewrite (serve_responder_raises open_gate (_routes application) request d
               (connected (start d)) (KeyError "id")
               (emit (Invoke "/competitor" GET) (connected (start d))).2);
      [| done | reflexivity |].
    2:{ rewrite Hresp. erewrite bind_return; [|reflexivity].
        unfold UserResource.on_get. rewrite Hid. reflexivity. }
    unfold outcome. by rewrite response_released.
Qed.

Lemma competitor_lookup_behind_the_gate_witness :
  outcome (API_.serve (wired open_gate (_routes application))
                      (competitor_query "01") database0)
  = Some (formatted
            match params (competitor_query "01") !! "id" with
            | Some id =>
                {| resp_status := "200 OK";
                   body := Success
                     [("Competitor",
                       PDict [("Name", PStr (if bool_decide (id = "1")
                                             then "Name" else "Name2"));
                              ("Points", PInt (if bool_decide (id = "1")
                                               then 100 else 99))])];
                   content_type := None; resp_headers := [] |}
            | None => respond_error CatchAllHandler.InternalServerError Response0
            end).
Proof.
  apply (competitor_lookup_behind_the_gate (competitor_query "01") database0);
    [reflexivity | reflexivity |].
  unfold database0, max_connections; simpl; lia.
Defined.

(** ** Error bodies *)

Lemma wf_to_dict e : wf_pyval (to_dict e).
Proof.
  unfold to_dict.
  destruct (title e), (description e), (href e); cbn;
    (split; [apply (bool_decide_unpack _); vm_compute; exact I | repeat split]);
    apply (bool_decide_unpack _); vm_compute; exact I.
Qed.

Lemma tuple_free_to_dict e : tuple_free (to_dict e) = true.
Proof. unfold to_dict. by destruct (title e), (description e), (href e). Qed.

(** X11.  For an error that has a representation, [error_serialiser]
    replaces the body by one JSON text, and decoding that text gives the
    dict of the error: its title, its description and its documentation
    link, each when the error has it; status, content type, headers,
    handle and log are left alone.  For an error that has none (an
    [HTTPNotFound()] or an [HTTPMethodNotAllowed] without description)
    the call [ex.to_json()] fails its assertion: [AssertionError] is
    raised and nothing is changed. *)
Theorem error_body_decodes_to_the_error request (ex : HTTPError) c :
  if has_representation ex then
    ∃ text,
      error_serialiser request ex c
      = (inr (), with_response
                   {| resp_status := resp_status (response c);
                      body := PStr text;
                      content_type := content_type (response c);
                      resp_headers := resp_headers (response c) |} c) ∧
      json.loads text
      = Some (PDict
                (match title ex with Some t => [("title", PStr t)] | None => [] end ++
                 match description ex with
                 | Some d => [("description", PStr d)] | None => []
                 end ++
                 match href ex with
                 | Some h => [("link",
                               PDict [("text", PStr "Documentation related to this error");
                                      ("href", PStr h); ("rel", PStr "help")])]
                 | None => []
                 end))
  else error_serialiser request ex c = (inl AssertionError, c).
Proof.
  unfold error_serialiser. destruct (has_representation ex); [|reflexivity].
  exists (to_json ex). split; [reflexivity|].
  unfold to_json.
  rewrite loads_dumps; [reflexivity | apply wf_to_dict | apply tuple_free_to_dict].
Qed.

(** Both kinds of error occur: the faults of the gate and the masked 500
    have a representation, the 404 and the 405 of falcon have none. *)
Example errors_with_and_without_representation :
  has_representation AuthMiddleware.AuthTokenRequired = true ∧
  has_representation AuthMiddleware.AuthenticationFailed = true ∧
  has_representation CatchAllHandler.InternalServerError = true ∧
  has_representation HTTPNotFound = false ∧
  has_representation (HTTPMethodNotAllowed ["GET"; "OPTIONS"]) = false.
Proof. repeat split. Qed.

(** X12.  The response to a request the gate rejects.  It carries the
    status 401, the challenge in the [WWW-Authenticate] header and, as
    body, the JSON text of the fault, which decodes in one step to the
    dict of the fault.  [ResponseFormatMiddleware] has no part in it:
    its [process_request] slot was never reached, so its
    [process_response] is not run, the body is not encoded a second
    time and the content type is not set by the module. *)
Theorem rejected_response_is_not_formatted request d :
  (in_use d < max_connections)%nat →
  ∃ e, (e = AuthMiddleware.AuthTokenRequired ∨ e = AuthMiddleware.AuthenticationFailed) ∧
       outcome (API_.serve application request d)
       = Some {| resp_status := "401 Unauthorized";
                 body := PStr (to_json e);
                 content_type := None;
                 resp_headers :=
                   [("WWW-Authenticate",
                     "Token type=" ++ String json.dquote ("Fernet" ++ String json.dquote ""))] |} ∧
       json.loads (to_json e) = Some (to_dict e).
Proof.
  intros Hd.
  destruct (get_header request "Authorization") as [t|] eqn:Ht.
  - exists AuthMiddleware.AuthTokenRequired. split; [by left|]. split.
    + rewrite (serve_application_rejected request d AuthMiddleware.AuthTokenRequired);
        [reflexivity | done | intros c; by eapply auth_rejects_present].
    + apply loads_dumps; [apply wf_to_dict | apply tuple_free_to_dict].
  - exists AuthMiddleware.AuthenticationFailed. split; [by right|]. split.
    + rewrite (serve_application_rejected request d AuthMiddleware.AuthenticationFailed);
        [reflexivity | done | intros c; by eapply auth_rejects_absent].
    + apply loads_dumps; [apply wf_to_dict | apply tuple_free_to_dict].
Qed.

Lemma rejected_response_is_not_formatted_witness :
  ∃ e, (e = AuthMiddleware.AuthTokenRequired ∨ e = AuthMiddleware.AuthenticationFailed) ∧
       outcome (API_.serve application request_abc database0)
       = Some {| resp_status := "401 Unauthorized";
                 body := PStr (to_json e);
                 content_type := None;
                 resp_headers :=
                   [("WWW-Authenticate",
                     "Token type=" ++ String json.dquote ("Fernet" ++ String json.dquote ""))] |} ∧
       json.loads (to_json e) = Some (to_dict e).
Proof.
  apply (rejected_response_is_not_formatted request_abc database0).
  unfold database0, max_connections; simpl; lia.
Defined.



(** X14.  Behind a gate that lets the request through, a request that
    matches no route (its path, one trailing slash and the leading
    slashes apart, is none of the registered paths) is answered with the
    404, and since [HTTPNotFound()] has no representation,
    [error_serialiser] is not called: the formatter encodes the
    untouched body [None], and the client reads the text [null]. *)
Theorem unrouted_path_behind_the_gate request d :
  API_.route_of application request = None →
  (in_use d < max_connections)%nat →
  API_.serve (wired open_gate (_routes application)) request d
  = (inr (), {| response := {| resp_status := "404 Not Found";
                               body := PStr "null";
                               content_type := Some "application/json; charset=utf-8";
                               resp_headers := [] |};
                db := {| closed := true; in_use := in_use d |};
                log := [Acquire; Release] |}).
Proof.
  intros Hroute Hd.
  rewrite (serve_responder_raises open_gate (_routes application) request d
             (connected (start d)) (HTTPError_exn HTTPNotFound) (connected (start d)));
    [reflexivity | done | reflexivity |].
  unfold API_._get_responder.
  change (API_.route_of (wired open_gate (_routes application)) request)
    with (API_.route_of application request).
  by rewrite Hroute.
Qed.

Lemma unrouted_path_behind_the_gate_witness :
  API_.serve (wired open_gate (_routes application)) (bare GET "/logout") database0
  = (inr (), {| response := {| resp_status := "404 Not Found";
                               body := PStr "null";
                               content_type := Some "application/json; charset=utf-8";
                               resp_headers := [] |};
                db := {| closed := true; in_use := in_use database0 |};
                log := [Acquire; Release] |}).
Proof.
  apply (unrouted_path_behind_the_gate (bare GET "/logout") database0); [reflexivity|].
  unfold database0, max_connections; simpl; lia.
Defined.

(** X15.  Behind a gate that lets the request through, a request to a
    registered path with a method its resource does not answer ([POST]
    where there is no [on_post], or any of [HEAD], [PUT], [DELETE],
    [TRACE], [CONNECT], [PATCH]) gets the 405; no responder of the
    resource is entered and the connection is returned. *)
Theorem method_not_answered_is_405 request r d :
  _routes application !! path request = Some r →
  match method request with
  | GET | OPTIONS => False
  | POST => res_on_post r = None
  | _ => True
  end →
  (in_use d < max_connections)%nat →
  (API_.serve (wired open_gate (_routes application)) request d).1 = inr () ∧
  resp_status (response (API_.serve (wired open_gate (_routes application)) request d).2)
  = "405 Method Not Allowed" ∧
  log (API_.serve (wired open_gate (_routes application)) request d).2
  = [Acquire; Release] ∧
  db (API_.serve (wired open_gate (_routes application)) request d).2
  = {| closed := true; in_use := in_use d |}.
Proof.
  intros Hroute Hm Hd.
  rewrite (serve_responder_raises open_gate (_routes application) request d
             (connected (start d))
             (HTTPError_exn (HTTPMethodNotAllowed (API_.allowed_methods r)))
             (connected (start d))); [by repeat split | done | reflexivity |].
  rewrite (get_responder_registered open_gate request r Hroute). cbn [fst].
  unfold API_.method_map.
  destruct (method request); try done. by rewrite Hm.
Qed.

Lemma method_not_answered_is_405_witness :
  resp_status (response (API_.serve (wired open_gate (_routes application))
                                    (bare POST "/") database0).2)
  = "405 Method Not Allowed".
Proof.
  apply (method_not_answered_is_405 (bare POST "/") RootResource.resource database0);
    [reflexivity | reflexivity |].
  unfold database0, max_connections; simpl; lia.
Defined.

(** ** The text the formatter writes *)












(** ** A request that gets through *)

(** X18.  Behind a gate that lets the request through, a [GET] or
    [POST] to a registered path whose resource answers the method (with
    an [id] parameter where the path is [/competitor]) enters that one
    responder, once, between the lease and the return of the
    connection; the client gets a 200 with the JSON content type and a
    body that decodes to the payload the responder set: the greeting at
    [/], a dict beginning with ['Success': True] elsewhere. *)
Theorem answered_request_behind_the_gate request r d :
  _routes application !! path request = Some r →
  match method request with
  | GET => True
  | POST => is_Some (res_on_post r)
  | _ => False
  end →
  (path request = "/competitor" → is_Some (params request !! "id")) →
  (in_use d < max_connections)%nat →
  ∃ text payload,
    API_.serve (wired open_gate (_routes application)) request d
    = (inr (), {| response := {| resp_status := "200 OK";
                                 body := PStr text;
                                 content_type := Some "application/json; charset=utf-8";
                                 resp_headers := [] |};
                  db := {| closed := true; in_use := in_use d |};
                  log := [Acquire; Invoke (path request) (method request); Release] |}) ∧
    json.loads text = Some payload ∧
    ((path request = "/" ∧ payload = PStr "Hello, World!") ∨
     ∃ rest, payload = PDict (("Success", PBool true) :: rest)).
Proof.
  intros Hroute Hm Hid Hd.
  assert (∃ f, (API_._get_responder (wired open_gate (_routes application)) request).1
               = (λ req, emit (Invoke (path request) (method request));; f req) ∧
               (res_on_get r = Some f ∨ res_on_post r = Some f)) as (f & Hresp & Hf).
  { rewrite (get_responder_registered open_gate request r Hroute). cbn [fst].
    unfold API_.method_map.
    destruct (method request); try done.
    - destruct (route_methods _ _ Hroute) as [[f Hf] _].
      exists f. rewrite Hf. auto.
    - destruct Hm as [f Hf]. exists f. rewrite Hf. auto. }
  pose proof (responder_cases (path request) r f request
                (emit (Invoke (path request) (method request)) (connected (start d))).2
                Hroute Hf) as Hrun.
  destruct (f request _) as [[ex|[]] c'] eqn:Hrun'.
  { destruct Hrun as (_ & Hp & Hnone & _).
    destruct (Hid Hp) as [id Hsome]. congruence. }
  destruct Hrun as (Hst & Hct & Hh & Hdb & Hlog & Hbody).
  exists (json.dumps (body (response c'))), (body (response c')).
  split; [|split; [|done]].
  - erewrite serve_responder_returns; [| done | reflexivity |].
    2:{ rewrite Hresp. erewrite bind_return; [|reflexivity]. apply Hrun'. }
    destruct c' as [[st b ct hs] db' l']. cbn in *. subst. reflexivity.
  - assert (tuple_free (body (response c')) = true) as Htf.
    { destruct Hbody as [[_ ->]|[rest Hrest]]; [reflexivity|].
      apply route_cases in Hroute.
      destruct Hroute as [[Hp ->]|[[Hp ->]|[[Hp ->]|[[Hp ->]|[[Hp ->]|[Hp ->]]]]]];
        (destruct Hf as [Hf|Hf]; cbn in Hf; simplify_eq);
        try (vm_compute in Hrun'; simplify_eq; reflexivity).
      unfold UserResource.on_get in Hrun'.
      destruct (params request !! "id") as [id|]; [|vm_compute in Hrun'; discriminate].
      destruct (bool_decide (id = "1")); vm_compute in Hrun'; simplify_eq; reflexivity. }
    apply loads_dumps; [|exact Htf]. clear Htf.
    destruct Hbody as [[_ ->]|[rest Hrest]]; [exact I|].
    apply route_cases in Hroute.
    destruct Hroute as [[Hp ->]|[[Hp ->]|[[Hp ->]|[[Hp ->]|[[Hp ->]|[Hp ->]]]]]];
      (destruct Hf as [Hf|Hf]; cbn in Hf; simplify_eq);
      try (vm_compute in Hrun'; simplify_eq; cbn in Hrest |- *;
           first
             [ discriminate
             | (split; [apply (bool_decide_unpack _); vm_compute; exact I | repeat split]);
               try (apply (bool_decide_unpack _); vm_compute; exact I) ]).
    unfold UserResource.on_get in Hrun'.
    destruct (params request !! "id") as [id|]; [|vm_compute in Hrun'; discriminate].
    destruct (bool_decide (id = "1")); vm_compute in Hrun'; simplify_eq; cbn;
      (split; [apply (bool_decide_unpack _); vm_compute; exact I | repeat split]);
      apply (bool_decide_unpack _); vm_compute; exact I.
Qed.

Lemma answered_request_behind_the_gate_witness :
  ∃ text payload,
    API_.serve (wired open_gate (_routes application)) (bare POST "/login") database0
    = (inr (), {| response := {| resp_status := "200 OK";
                                 body := PStr text;
                                 content_type := Some "application/json; charset=utf-8";
                                 resp_headers := [] |};
                  db := {| closed := true; in_use := in_use database0 |};
                  log := [Acquire; Invoke (path (bare POST "/login"))
                                          (method (bare POST "/login")); Release] |}) ∧
    json.loads text = Some payload ∧
    ((path (bare POST "/login") = "/" ∧ payload = PStr "Hello, World!") ∨
     ∃ rest, payload = PDict (("Success", PBool true) :: rest)).
Proof.
  apply (answered_request_behind_the_gate (bare POST "/login") LoginResource.resource
           database0); [reflexivity | by eexists | discriminate |].
  unfold database0, max_connections; simpl; lia.
Defined.
